(** * TUCAN-GNN: conversion of TUCAN strings into molecular graphs

    A shallow embedding of [tucan_gnn/conversion.py] and the properties of
    its conversion pipeline.

    - A Python [str] is a [string]; its characters are the code points below
      256, and the character classes used by the program ([\d], [[A-Z]],
      [str.isalpha], the white space skipped by [int]) are given on them.
    - Python integers are [Z] where they come out of [int(...)], and [nat]
      where they come out of [enumerate].
    - A Python [dict] that the program iterates over is an insertion-ordered
      association list ([pydict]): [items()] yields the entries in insertion
      order and assigning to a key that is present keeps its position.  The
      two module-level lookup tables are only ever indexed, so they are
      finite maps ([gmap]).
    - A raised exception is a value of [exn]; a function that can raise
      returns a [result].
    - The list [element_symbols] comes from the external package [tucan]; the
      development is parametric in it.
    - The interpreter's configurable limit on the number of digits accepted
      by [int] is not part of the model. *)

From Stdlib Require Import ZArith Ascii String.
From stdpp Require Import base tactics option list sorting strings gmap.

Local Open Scope Z_scope.
Local Open Scope nat_scope.

(** ** Exceptions *)

Inductive exn : Type := KeyError | ValueError | IndexError.

Inductive result (A : Type) : Type :=
  | Ok (a : A)
  | Raise (e : exn).
Arguments Ok {A} a.
Arguments Raise {A} e.

Global Instance exn_eq_dec : EqDecision exn.
Proof. solve_decision. Defined.

Global Instance result_ret : MRet result := λ A a, Ok a.
Global Instance result_bind : MBind result := λ A B k r,
  match r with
  | Ok a => k a
  | Raise e => Raise e
  end.

(** A failed lookup or parse, turned into the exception the interpreter
    raises for it. *)
Definition or_raise {A} (e : exn) (o : option A) : result A :=
  match o with
  | Some a => Ok a
  | None => Raise e
  end.

(** A [for] loop whose body can raise: the state is threaded from left to
    right and the first exception ends the loop. *)
Fixpoint for_each {A S} (body : S → A → result S) (s : S) (l : list A) : result S :=
  match l with
  | [] => Ok s
  | x :: l' => s' ← body s x; for_each body s' l'
  end.

(** A list comprehension whose element expression can raise. *)
Fixpoint comprehension {A B} (f : A → result B) (l : list A) : result (list B) :=
  match l with
  | [] => Ok []
  | x :: l' => y ← f x; ys ← comprehension f l'; Ok (y :: ys)
  end.

(** [enumerate(l)] *)
Definition enumerate {A} (l : list A) : list (nat * A) := zip (seq 0 (length l)) l.

(** ** Characters *)

Module Char.
Definition code (c : ascii) : N := N_of_ascii c.

Definition between (lo hi : N) (c : ascii) : bool :=
  ((lo <=? code c) && (code c <=? hi))%N.

(** [\d] *)
Definition is_digit (c : ascii) : bool := between 48 57 c.

(** [[A-Z]] *)
Definition is_capital (c : ascii) : bool := between 65 90 c.

(** The characters [str.isalpha] accepts. *)
Definition is_alpha (c : ascii) : bool :=
  between 65 90 c || between 97 122 c
  || (code c =? 170)%N || (code c =? 181)%N || (code c =? 186)%N
  || between 192 214 c || between 216 246 c || between 248 255 c.

(** The white space [int] skips around a literal. *)
Definition is_space (c : ascii) : bool :=
  between 9 13 c || (code c =? 32)%N || (code c =? 133)%N || (code c =? 160)%N.

Definition digit_value (c : ascii) : Z := Z.of_N (code c) - 48.

Definition of_digit (d : nat) : ascii := ascii_of_N (48 + N.of_nat d).
End Char.

(** ** Strings *)

Module Str.
Fixpoint all (p : ascii → bool) (s : string) : bool :=
  match s with
  | EmptyString => true
  | String c r => p c && all p r
  end.

Fixpoint any (p : ascii → bool) (s : string) : bool :=
  match s with
  | EmptyString => false
  | String c r => p c || any p r
  end.

(** [c in s] *)
Definition contains (c : ascii) (s : string) : bool :=
  any (λ x, bool_decide (x = c)) s.

(** [s.isalpha()] *)
Definition isalpha (s : string) : bool :=
  match s with
  | EmptyString => false
  | _ => all Char.is_alpha s
  end.

(** [s[1:]] *)
Definition drop_first (s : string) : string :=
  match s with
  | EmptyString => EmptyString
  | String _ r => r
  end.

(** Puts a character in front of the first string of a list ([split] and the
    scans of [Re] only use it on lists that are not empty). *)
Definition cons_head (c : ascii) (l : list string) : list string :=
  match l with
  | [] => []
  | t :: ts => String c t :: ts
  end.

(** Puts a string in front of the first string of a list. *)
Definition prepend (w : string) (l : list string) : list string :=
  match l with
  | [] => []
  | t :: ts => (w +:+ t) :: ts
  end.

(** Whether the first character of [s] is in the class [p]. *)
Definition starts_with (p : ascii → bool) (s : string) : bool :=
  match s with
  | EmptyString => false
  | String c _ => p c
  end.

(** [s.split(sep)] for a separator of one character. *)
Fixpoint split (sep : ascii) (s : string) : list string :=
  match s with
  | EmptyString => [EmptyString]
  | String c r =>
      if decide (c = sep) then EmptyString :: split sep r
      else cons_head c (split sep r)
  end.

(** The longest prefix of non-capital characters. *)
Fixpoint take_non_capital (s : string) : string :=
  match s with
  | EmptyString => EmptyString
  | String c r =>
      if Char.is_capital c then EmptyString else String c (take_non_capital r)
  end.

Fixpoint strip_left (s : string) : string :=
  match s with
  | EmptyString => EmptyString
  | String c r => if Char.is_space c then strip_left r else s
  end.

(** Drops trailing white space. *)
Fixpoint strip_right (s : string) : string :=
  match s with
  | EmptyString => EmptyString
  | String c r =>
      match strip_right r with
      | EmptyString => if Char.is_space c then EmptyString else String c EmptyString
      | r' => String c r'
      end
  end.
End Str.

(** ** Regular expressions of the program *)

Module Re.
(** [re.split("(\d+)", s)]: the pieces between the maximal runs of digits,
    with the runs themselves in between.  [split_text] is the scan outside
    a run and [split_run] the scan inside one; the head of the returned
    list is the piece being read. *)
Fixpoint split_text (s : string) : list string :=
  match s with
  | EmptyString => [EmptyString]
  | String c r =>
      if Char.is_digit c then EmptyString :: Str.cons_head c (split_run r)
      else Str.cons_head c (split_text r)
  end
with split_run (s : string) : list string :=
  match s with
  | EmptyString => [EmptyString; EmptyString]
  | String c r =>
      if Char.is_digit c then Str.cons_head c (split_run r)
      else EmptyString :: Str.cons_head c (split_text r)
  end.

Definition split_digits (s : string) : list string := split_text s.

(** [re.findall('[A-Z][^A-Z]*', s)]: every capital letter starts a match,
    which runs up to the next capital letter. *)
Fixpoint findall_capital (s : string) : list string :=
  match s with
  | EmptyString => []
  | String c r =>
      if Char.is_capital c
      then String c (Str.take_non_capital r) :: findall_capital r
      else findall_capital r
  end.
End Re.

(** ** [int(s)] *)

Module Int.
(** Digits with single underscores between them; [after_digit] tells
    whether the previous character was a digit. *)
Fixpoint digits (acc : Z) (after_digit : bool) (s : string) : option Z :=
  match s with
  | EmptyString => if after_digit then Some acc else None
  | String c r =>
      if Char.is_digit c then digits (acc * 10 + Char.digit_value c)%Z true r
      else if decide (c = "_"%char)
           then (if after_digit then digits acc false r else None)
           else None
  end.

(** The number a run of digits stands for, read after [acc]. *)
Fixpoint value (acc : Z) (s : string) : Z :=
  match s with
  | EmptyString => acc
  | String c r => value (acc * 10 + Char.digit_value c)%Z r
  end.

Definition parse (s : string) : option Z :=
  match Str.strip_right (Str.strip_left s) with
  | EmptyString => None
  | String c r =>
      if decide (c = "+"%char) then digits 0 false r
      else if decide (c = "-"%char) then Z.opp <$> digits 0 false r
      else digits 0 false (String c r)
  end.

(** [int(s)]: a literal that does not parse raises [ValueError]. *)
Definition int (s : string) : result Z := or_raise ValueError (parse s).
End Int.

(** ** Dictionaries in insertion order *)

Abbreviation pydict K V := (list (K * V)).

Module Dict.
Section ops.
Context {K V : Type} `{EqDecision K}.

(** [d.get(k)]; [d[k]] raises [KeyError] where this is [None]. *)
Fixpoint get (k : K) (d : pydict K V) : option V :=
  match d with
  | [] => None
  | (k', v) :: d' => if decide (k = k') then Some v else get k d'
  end.

(** [d[k] = v]: a key that is present keeps its place. *)
Fixpoint set (k : K) (v : V) (d : pydict K V) : pydict K V :=
  match d with
  | [] => [(k, v)]
  | (k', v') :: d' =>
      if decide (k = k') then (k', v) :: d' else (k', v') :: set k v d'
  end.

(** [dict(pairs)] *)
Definition of_pairs (pairs : list (K * V)) : pydict K V :=
  foldl (λ d kv, set kv.1 kv.2 d) [] pairs.

(** [d.items()] *)
Definition items (d : pydict K V) : list (K * V) := d.

Definition keys (d : pydict K V) : list K := d.*1.

(** The invariant of a dictionary: no key occurs twice. *)
Definition wf (d : pydict K V) : Prop := NoDup (keys d).

(** [d1 == d2]: the same keys with the same values, in any order. *)
Definition same (d1 d2 : pydict K V) : Prop := ∀ k, get k d1 = get k d2.
End ops.
End Dict.

(** ** The tokenizer of sum formulas *)

(** The body of the loop over [split_sum_form]; the state is
    [(previous_element, element_count)]. *)
Definition tokenizer_step (st : string * pydict string Z) (substring : string)
    : result (string * pydict string Z) :=
  let '(previous_element, element_count) := st in
  let split_by_capital_letter := Re.findall_capital substring in
  match split_by_capital_letter with
  | [] =>
      n ← Int.int substring;
      Ok (previous_element, Dict.set previous_element n element_count)
  | [element] => Ok (element, element_count)
  | _ =>
      Ok (default EmptyString (last split_by_capital_letter),
          foldl (λ d element, Dict.set element 1%Z d) element_count
                (removelast split_by_capital_letter))
  end.

Definition element_count_from_sum_formula (sum_form : string)
    : result (pydict string Z) :=
  let split_sum_form := Re.split_digits sum_form in
  let split_sum_form :=
    if decide (last split_sum_form = Some EmptyString)
    then removelast split_sum_form else split_sum_form in
  st ← for_each tokenizer_step (EmptyString, []) split_sum_form;
  let '(previous_element, element_count) := st in
  last_token ← or_raise IndexError (last split_sum_form);
  Ok (if Str.isalpha last_token
      then Dict.set previous_element 1%Z element_count
      else element_count).

(** The tokens the loop of [element_count_from_sum_formula] runs over: the
    split without its last piece when that is empty. *)
Definition tokens (sum_form : string) : list string :=
  let split_sum_form := Re.split_digits sum_form in
  if decide (last split_sum_form = Some EmptyString)
  then removelast split_sum_form else split_sum_form.

(** The loop of [element_count_from_sum_formula] and the check of the last
    token after it, started in any state. *)
Definition tokenizer_run (split_sum_form : list string)
    (st : string * pydict string Z) : result (pydict string Z) :=
  st ← for_each tokenizer_step st split_sum_form;
  let '(previous_element, element_count) := st in
  last_token ← or_raise IndexError (last split_sum_form);
  Ok (if Str.isalpha last_token
      then Dict.set previous_element 1%Z element_count
      else element_count).

(** ** The edges *)

(** A tuple of integers, of any length. *)
Abbreviation pytuple := (list Z).

Definition edges_of_section (edge_section : string) : result (list pytuple) :=
  let edges_with_opening_bracket := removelast (Str.split ")" edge_section) in
  let edges := Str.drop_first <$> edges_with_opening_bracket in
  comprehension (λ edge, comprehension Int.int (Str.split "-" edge)) edges.

Definition tucan_string_to_graph_edges (tucan_string : string)
    : result (list pytuple) :=
  edge_section ← or_raise IndexError (Str.split "/" tucan_string !! 1);
  edges_of_section edge_section.

(** ** The nodes *)

(** The value of a node: an element symbol or an atomic number. *)
Inductive label : Type :=
  | Symbol (s : string)
  | Number (n : nat).

Global Instance label_eq_dec : EqDecision label.
Proof. solve_decision. Defined.

(** The order of [sorted] on the items of a dictionary with integer keys and
    values: tuples compare lexicographically. *)
Definition item_le (p q : nat * Z) : Prop :=
  p.1 < q.1 ∨ (p.1 = q.1 ∧ (p.2 ≤ q.2)%Z).

Global Instance item_le_dec : RelDecision item_le.
Proof. intros p q. unfold item_le. apply _. Defined.

Definition sorted (l : list (nat * Z)) : list (nat * Z) := merge_sort item_le l.

(** The dictionary that numbers the entries of a list from one. *)
Definition numbered {A} (l : list A) : pydict nat A := zip (seq 1 (length l)) l.

(** The sum of the counts of an element-count mapping. *)
Definition total_count (d : pydict string Z) : Z :=
  foldr (λ kv acc, (kv.2 + acc)%Z) 0%Z d.

Section Conversion.
(** [tucan.element_properties.element_symbols] *)
Variable element_symbols : list string.

(** The loop at module level that fills both lookup tables. *)
Definition lookup_tables : gmap string nat * gmap nat string :=
  foldl (λ tables ie,
           (<[ie.2 := ie.1 + 1]> tables.1, <[ie.1 + 1 := ie.2]> tables.2))
        (∅, ∅) (enumerate element_symbols).

Definition atom_number_dict : gmap string nat := lookup_tables.1.
Definition number_atom_dict : gmap nat string := lookup_tables.2.

(** [for i in range(0, n): node_list.append(number_atom_dict[key])] *)
Fixpoint append_copies (key : nat) (n : nat) (node_list : list string)
    : result (list string) :=
  match n with
  | 0 => Ok node_list
  | S n' =>
      element ← or_raise KeyError (number_atom_dict !! key);
      append_copies key n' (node_list ++ [element])
  end.

Definition graph_nodes_from_element_count (element_count : pydict string Z)
    : result (pydict nat string) :=
  pairs ← comprehension
             (λ kv, n ← or_raise KeyError (atom_number_dict !! kv.1); Ok (n, kv.2))
             (Dict.items element_count);
  let element_count_by_atom_number := Dict.of_pairs pairs in
  let element_count_by_atom_number :=
    Dict.of_pairs (sorted (Dict.items element_count_by_atom_number)) in
  node_list ← for_each
                 (λ node_list kv, append_copies kv.1 (Z.to_nat kv.2) node_list)
                 [] (Dict.items element_count_by_atom_number);
  Ok (foldl (λ graph_nodes ie, Dict.set (ie.1 + 1) ie.2 graph_nodes)
            [] (enumerate node_list)).

(** The items of an element-count mapping with the atomic number for key. *)
Definition by_atom_number (d : pydict string Z) : list (nat * Z) :=
  (λ kv, (default 0 (atom_number_dict !! kv.1), kv.2)) <$> d.

(** The nodes that a list of items stands for: as many copies of the element
    of each key as its count says. *)
Definition expand (l : list (nat * Z)) : list string :=
  l ≫= λ kv, replicate (Z.to_nat kv.2) (default EmptyString (number_atom_dict !! kv.1)).

Definition convert_graph_nodes_element_to_atomic_number
    (graph_nodes : pydict nat string) : result (pydict nat nat) :=
  for_each (λ graph_nodes_converted nv,
              n ← or_raise KeyError (atom_number_dict !! nv.2);
              Ok (Dict.set nv.1 n graph_nodes_converted))
           [] (Dict.items graph_nodes).

Definition tucan_string_to_graph_nodes
    (tucan_string : string) (use_element_symbols : bool)
    : result (pydict nat label) :=
  sum_formula ← or_raise IndexError (Str.split "/" tucan_string !! 0);
  element_counts ← element_count_from_sum_formula sum_formula;
  graph_nodes ← graph_nodes_from_element_count element_counts;
  if use_element_symbols then Ok (prod_map id Symbol <$> graph_nodes)
  else
    converted ← convert_graph_nodes_element_to_atomic_number graph_nodes;
    Ok (prod_map id Number <$> converted).

Record graph : Type := Graph {
  nodes : pydict nat label;
  edges : list pytuple
}.

Definition tucan_string_to_graph (tucan_string : string) : result graph :=
  nodes ← tucan_string_to_graph_nodes tucan_string true;
  edges ← tucan_string_to_graph_edges tucan_string;
  Ok (Graph nodes edges).
End Conversion.


(** ** Well-formed input

    The text of the inputs the properties below are about: decimal
    numerals, bracketed pairs of node ids, and sum formulas made of element
    symbols with optional counts. *)

Module Syntax.
(** The decimal numeral of [n], most significant digit first. *)
Fixpoint dec_go (fuel n : nat) (acc : string) : string :=
  let acc' := String (Char.of_digit (n mod 10)) acc in
  match fuel with
  | 0 => acc'
  | S fuel' => if n <? 10 then acc' else dec_go fuel' (n / 10) acc'
  end.

Definition dec (n : nat) : string := dec_go n n EmptyString.

(** [(a-b)] *)
Definition edge (ab : nat * nat) : string :=
  "(" +:+ dec ab.1 +:+ "-" +:+ dec ab.2 +:+ ")".

Definition edge_section (l : list (nat * nat)) : string :=
  foldr (λ ab s, edge ab +:+ s) EmptyString l.

Definition is_lower (c : ascii) : bool := Char.between 97 122 c.

(** The strings of a list, one after the other. *)
Definition join (l : list string) : string := foldr String.append EmptyString l.

(** An element symbol: a capital letter and then small letters. *)
Definition is_symbol (s : string) : bool :=
  match s with
  | EmptyString => false
  | String c r => Char.is_capital c && Str.all is_lower r
  end.

(** A symbol with its count; no count stands for one atom. *)
Definition count_text (c : option nat) : string :=
  match c with
  | None => EmptyString
  | Some n => dec n
  end.

Definition count_value (c : option nat) : Z :=
  match c with
  | None => 1%Z
  | Some n => Z.of_nat n
  end.

Definition formula (units : list (string * option nat)) : string :=
  foldr (λ u s, u.1 +:+ count_text u.2 +:+ s) EmptyString units.

(** The assignments a formula stands for, one per unit, in order. *)
Definition assignments (units : list (string * option nat)) : list (string * Z) :=
  (λ u, (u.1, count_value u.2)) <$> units.

(** What may follow a section of a TUCAN string: nothing, or [/] and more. *)
Definition section_end (rest : string) : Prop :=
  rest = EmptyString ∨ ∃ r, rest = String "/" r.
End Syntax.

(** The first ten entries of the periodic table, as an example of
    [element_symbols]. *)
Definition first_elements : list string :=
  ["H"; "He"; "Li"; "Be"; "B"; "C"; "N"; "O"; "F"; "Ne"].

(** ** Notions of the further properties *)

(** [s.count(c)] for a character [c]. *)
Fixpoint count_char (c : ascii) (s : string) : nat :=
  match s with
  | EmptyString => 0
  | String x r => (if decide (x = c) then 1 else 0) + count_char c r
  end.

(** A pair of node ids written like [(a-b)], with any character [c] in the
    place of the opening bracket. *)
Definition edge_opened (cab : ascii * (nat * nat)) : string :=
  String cab.1 (Syntax.dec cab.2.1 +:+ "-" +:+ Syntax.dec cab.2.2 +:+ ")").

Definition edge_section_opened (l : list (ascii * (nat * nat))) : string :=
  foldr (λ cab s, edge_opened cab +:+ s) EmptyString l.

(** The shape of a match of [[A-Z][^A-Z]*] in text without digits: a capital
    letter, and then neither a capital letter nor a digit. *)
Definition is_match (k : string) : bool :=
  match k with
  | EmptyString => false
  | String c r =>
      Char.is_capital c && negb (Str.any Char.is_capital r)
      && negb (Str.any Char.is_digit r)
  end.

(** * Properties *)

Local Arguments String.append !_ _ / : simpl nomatch.
Local Arguments Nat.modulo : simpl never.
Local Arguments Nat.div : simpl never.

(** ** Characters *)

Ltac char_cases c :=
  destruct c as [[] [] [] [] [] [] [] []]; try done.

Lemma digit_not_capital c : Char.is_digit c = true → Char.is_capital c = false.
Proof. char_cases c. Qed.

Lemma digit_not_alpha c : Char.is_digit c = true → Char.is_alpha c = false.
Proof. char_cases c. Qed.

Lemma digit_not_space c : Char.is_digit c = true → Char.is_space c = false.
Proof. char_cases c. Qed.

Lemma digit_not_punctuation c :
  Char.is_digit c = true →
  c ≠ ")"%char ∧ c ≠ "-"%char ∧ c ≠ "/"%char ∧ c ≠ "_"%char ∧ c ≠ "+"%char
  ∧ c ≠ "("%char.
Proof. char_cases c. Qed.

Lemma capital_is_alpha c : Char.is_capital c = true → Char.is_alpha c = true.
Proof. char_cases c. Qed.

Lemma capital_not_digit c : Char.is_capital c = true → Char.is_digit c = false.
Proof. char_cases c. Qed.

Lemma lower_is_alpha c : Syntax.is_lower c = true → Char.is_alpha c = true.
Proof. char_cases c. Qed.

Lemma lower_not_capital c : Syntax.is_lower c = true → Char.is_capital c = false.
Proof. char_cases c. Qed.

Lemma lower_not_digit c : Syntax.is_lower c = true → Char.is_digit c = false.
Proof. char_cases c. Qed.

Lemma of_digit_is_digit d : d < 10 → Char.is_digit (Char.of_digit d) = true.
Proof. intros H. do 10 (destruct d as [|d]; [done|]). lia. Qed.

Lemma digit_value_of_digit d :
  d < 10 → Char.digit_value (Char.of_digit d) = Z.of_nat d.
Proof. intros H. do 10 (destruct d as [|d]; [done|]). lia. Qed.

(** ** Strings *)

Lemma append_nil_r s : s +:+ "" = s.
Proof. induction s; simpl; congruence. Qed.

Lemma append_assoc s t u : (s +:+ t) +:+ u = s +:+ (t +:+ u).
Proof. induction s; simpl; congruence. Qed.

Lemma any_append p s t : Str.any p (s +:+ t) = Str.any p s || Str.any p t.
Proof. induction s as [|c r IH]; simpl; [done|]. by rewrite IH, orb_assoc. Qed.

Lemma all_append p s t : Str.all p (s +:+ t) = Str.all p s && Str.all p t.
Proof. induction s as [|c r IH]; simpl; [done|]. by rewrite IH, andb_assoc. Qed.

Lemma contains_append c s t :
  Str.contains c (s +:+ t) = Str.contains c s || Str.contains c t.
Proof. apply any_append. Qed.

Lemma contains_cons_false c x s :
  Str.contains c (String x s) = false ↔ x ≠ c ∧ Str.contains c s = false.
Proof.
  unfold Str.contains; simpl. rewrite orb_false_iff, bool_decide_eq_false. done.
Qed.

Lemma all_digit_contains c s :
  Char.is_digit c = false → Str.all Char.is_digit s = true →
  Str.contains c s = false.
Proof.
  intros Hc. induction s as [|x r IH]; [done|]. simpl.
  intros [Hx Hr]%andb_true_iff. apply contains_cons_false. split; [|by auto].
  intros ->. congruence.
Qed.

Lemma removelast_cons_head c l :
  removelast (Str.cons_head c l) = Str.cons_head c (removelast l).
Proof. by destruct l as [|t [|t' l]]. Qed.

Lemma removelast_cons {A} (x : A) l : l ≠ [] → removelast (x :: l) = x :: removelast l.
Proof. by destruct l. Qed.

Lemma split_not_nil sep s : Str.split sep s ≠ [].
Proof.
  induction s as [|c r IH]; simpl; [done|].
  case_decide; [done|]. by destruct (Str.split sep r).
Qed.

Lemma split_without sep s : Str.contains sep s = false → Str.split sep s = [s].
Proof.
  induction s as [|c r IH]; [done|].
  intros [Hc Hr]%contains_cons_false. simpl.
  rewrite decide_False by done. by rewrite IH.
Qed.

Lemma split_append sep a b :
  Str.contains sep a = false →
  Str.split sep (a +:+ String sep b) = a :: Str.split sep b.
Proof.
  induction a as [|c r IH]; simpl.
  - intros _. by rewrite decide_True.
  - intros [Hc Hr]%contains_cons_false.
    rewrite decide_False by done. by rewrite IH.
Qed.

Lemma removelast_split_append sep p t :
  Str.contains sep t = false →
  removelast (Str.split sep (p +:+ t)) = removelast (Str.split sep p).
Proof.
  intros Ht. induction p as [|c r IH]; simpl.
  - by rewrite split_without.
  - case_decide.
    + rewrite !removelast_cons by apply split_not_nil. by rewrite IH.
    + by rewrite !removelast_cons_head, IH.
Qed.

(** The section of a TUCAN string that follows the first [/]. *)
Lemma split_second_section f e rest :
  Str.contains "/" f = false → Str.contains "/" e = false →
  Syntax.section_end rest →
  Str.split "/" (f +:+ String "/" (e +:+ rest)) !! 1 = Some e.
Proof.
  intros Hf He Hrest. rewrite split_append by done. simpl.
  destruct Hrest as [->|[r ->]].
  - by rewrite append_nil_r, split_without.
  - by rewrite split_append.
Qed.

(** The section of a TUCAN string that precedes the first [/]. *)
Lemma split_first_section f rest :
  Str.contains "/" f = false → Syntax.section_end rest →
  Str.split "/" (f +:+ rest) !! 0 = Some f.
Proof.
  intros Hf [->|[r ->]].
  - by rewrite append_nil_r, split_without.
  - by rewrite split_append.
Qed.

(** ** Loops and comprehensions *)

Lemma comprehension_app {A B} (f : A → result B) l1 l2 :
  comprehension f (l1 ++ l2)
  = ys1 ← comprehension f l1; ys2 ← comprehension f l2; Ok (ys1 ++ ys2).
Proof.
  induction l1 as [|x l1 IH]; simpl.
  - by destruct (comprehension f l2).
  - destruct (f x); simpl; [|done]. rewrite IH.
    destruct (comprehension f l1); simpl; [|done].
    by destruct (comprehension f l2).
Qed.

Lemma comprehension_fmap {A B C} (f : B → result C) (h : A → B) l :
  comprehension f (h <$> l) = comprehension (f ∘ h) l.
Proof. induction l as [|x l IH]; simpl; [done|]. by rewrite <- IH. Qed.

Lemma comprehension_total {A B} (f : A → result B) (g : A → B) l :
  Forall (λ x, f x = Ok (g x)) l → comprehension f l = Ok (g <$> l).
Proof. induction 1 as [|x l Hx _ IH]; simpl; [done|]. by rewrite Hx, IH. Qed.

(** A comprehension whose element expression can only raise [e] raises [e]
    as soon as one element does. *)
Lemma comprehension_raise {A B} (f : A → result B) e l :
  Forall (λ x, f x = Raise e ∨ ∃ y, f x = Ok y) l →
  Exists (λ x, f x = Raise e) l →
  comprehension f l = Raise e.
Proof.
  induction 1 as [|x l Hx Hl IH]; intros Hex; [by inversion Hex|]. simpl.
  destruct Hx as [->|[y Hy]]; [done|]. rewrite Hy. simpl.
  inversion Hex as [?? Hbad|?? Hbad]; subst; [congruence|].
  by rewrite IH.
Qed.

Lemma comprehension_Forall2 {A B} (f : A → result B) l ys :
  comprehension f l = Ok ys ↔ Forall2 (λ x y, f x = Ok y) l ys.
Proof.
  revert ys. induction l as [|x l IH]; intros ys; simpl.
  - split; [intros [= <-]; constructor | by inversion 1].
  - destruct (f x) as [y|e] eqn:Hx; simpl.
    + destruct (comprehension f l) as [ys'|e] eqn:Hl; simpl.
      * split.
        -- intros [= <-]. constructor; [done|]. by apply IH.
        -- inversion 1 as [|???? Hy Hys]; subst.
           apply IH in Hys. congruence.
      * split; [done|]. inversion 1 as [|???? Hy Hys]; subst.
        by apply IH in Hys.
    + split; [done|]. inversion 1; congruence.
Qed.

(** ** Integer literals *)

Lemma digits_of_run acc b s :
  Str.all Char.is_digit s = true → s ≠ EmptyString ∨ b = true →
  Int.digits acc b s = Some (Int.value acc s).
Proof.
  revert acc b. induction s as [|c r IH]; intros acc b Hall Hne; simpl.
  - by destruct Hne as [?| ->].
  - simpl in Hall. apply andb_true_iff in Hall as [Hc Hr].
    rewrite Hc. apply IH; auto.
Qed.

Lemma strip_right_without_space s :
  Str.any Char.is_space s = false → Str.strip_right s = s.
Proof.
  induction s as [|c r IH]; [done|]. simpl.
  intros [Hc Hr]%orb_false_iff. rewrite IH by done.
  destruct r; [by rewrite Hc | done].
Qed.

Lemma run_without_space s :
  Str.all Char.is_digit s = true → Str.any Char.is_space s = false.
Proof.
  induction s as [|c r IH]; [done|]. simpl.
  intros [Hc Hr]%andb_true_iff. by rewrite (digit_not_space c), IH.
Qed.

(** [int] reads a run of digits as the number it stands for. *)
Lemma parse_run s :
  Str.all Char.is_digit s = true → s ≠ EmptyString →
  Int.parse s = Some (Int.value 0 s).
Proof.
  intros Hall Hne. destruct s as [|c r]; [done|].
  pose proof Hall as [Hc Hr]%andb_true_iff.
  unfold Int.parse.
  assert (Str.strip_left (String c r) = String c r) as ->.
  { simpl. by rewrite (digit_not_space c). }
  rewrite strip_right_without_space by by apply run_without_space.
  destruct (digit_not_punctuation c Hc) as (_ & Hminus & _ & _ & Hplus & _).
  rewrite !decide_False by done. apply digits_of_run; auto.
Qed.

Lemma value_append acc s t : Int.value acc (s +:+ t) = Int.value (Int.value acc s) t.
Proof. revert acc. induction s as [|c r IH]; intros acc; simpl; [done|]. apply IH. Qed.

Lemma dec_go_append fuel n acc :
  Syntax.dec_go fuel n acc = Syntax.dec_go fuel n EmptyString +:+ acc.
Proof.
  revert n acc. induction fuel as [|fuel IH]; intros n acc; simpl; [done|].
  destruct (n <? 10); [done|].
  rewrite (IH _ (String _ acc)), (IH _ (String _ EmptyString)).
  by rewrite append_assoc.
Qed.

Lemma dec_go_all_digit fuel n acc :
  Str.all Char.is_digit acc = true →
  Str.all Char.is_digit (Syntax.dec_go fuel n acc) = true.
Proof.
  revert n acc. induction fuel as [|fuel IH]; intros n acc Hacc; simpl.
  - rewrite of_digit_is_digit; [done|]. apply Nat.mod_upper_bound. lia.
  - assert (Char.is_digit (Char.of_digit (n mod 10)) = true) as Hd.
    { apply of_digit_is_digit, Nat.mod_upper_bound. lia. }
    destruct (n <? 10); [simpl; by rewrite Hd|].
    apply IH. simpl. by rewrite Hd.
Qed.

Lemma dec_go_not_empty fuel n acc : Syntax.dec_go fuel n acc ≠ EmptyString.
Proof.
  revert n acc. induction fuel as [|fuel IH]; intros n acc; simpl; [done|].
  destruct (n <? 10); [done|]. apply IH.
Qed.

Lemma dec_go_value fuel n :
  n < 10 ∨ n ≤ fuel →
  Int.value 0 (Syntax.dec_go fuel n EmptyString) = Z.of_nat n.
Proof.
  revert n. induction fuel as [|fuel IH]; intros n Hn; simpl.
  - rewrite digit_value_of_digit by (apply Nat.mod_upper_bound; lia).
    rewrite Nat.mod_small by lia. lia.
  - destruct (Nat.ltb_spec n 10) as [Hlt|Hge]; simpl.
    + rewrite digit_value_of_digit by (apply Nat.mod_upper_bound; lia).
      rewrite Nat.mod_small by lia. lia.
    + rewrite dec_go_append, value_append. simpl.
      rewrite IH.
      * rewrite digit_value_of_digit by (apply Nat.mod_upper_bound; lia).
        pose proof (Nat.div_mod_eq n 10). lia.
      * right. pose proof (Nat.div_mod_eq n 10). lia.
Qed.

Lemma dec_all_digit n : Str.all Char.is_digit (Syntax.dec n) = true.
Proof. by apply dec_go_all_digit. Qed.

Lemma dec_not_empty n : Syntax.dec n ≠ EmptyString.
Proof. apply dec_go_not_empty. Qed.

(** [int] reads back the decimal numeral of a number. *)
Lemma int_dec n : Int.int (Syntax.dec n) = Ok (Z.of_nat n).
Proof.
  unfold Int.int. rewrite parse_run by auto using dec_all_digit, dec_not_empty.
  unfold Syntax.dec. rewrite dec_go_value by auto. done.
Qed.

Lemma dec_without c n : Char.is_digit c = false → Str.contains c (Syntax.dec n) = false.
Proof. intros Hc. apply all_digit_contains; [done|apply dec_all_digit]. Qed.

(** ** The edges *)

Lemma edges_of_edge_section l :
  edges_of_section (Syntax.edge_section l)
  = Ok ((λ ab, [Z.of_nat ab.1; Z.of_nat ab.2]) <$> l).
Proof.
  unfold edges_of_section.
  assert (Str.split ")" (Syntax.edge_section l)
          = ((λ ab, "(" +:+ Syntax.dec ab.1 +:+ "-" +:+ Syntax.dec ab.2) <$> l)
              ++ [EmptyString]) as ->.
  { induction l as [|[a b] l IH]; [done|].
    cbn [Syntax.edge_section foldr fmap list_fmap app].
    fold (Syntax.edge_section l). unfold Syntax.edge at 1.
    rewrite <- IH. cbn [fst snd].
    rewrite <- (split_append ")" ("(" +:+ Syntax.dec a +:+ "-" +:+ Syntax.dec b)).
    - f_equal. simpl. f_equal. by rewrite !append_assoc; simpl; rewrite !append_assoc.
    - by rewrite !contains_append, !dec_without. }
  rewrite removelast_last, !comprehension_fmap.
  apply comprehension_total, Forall_forall. intros [a b] _. simpl.
  rewrite split_append by by apply dec_without.
  rewrite split_without by by apply dec_without.
  simpl. by rewrite !int_dec.
Qed.

Lemma edge_section_without_slash l :
  Str.contains "/" (Syntax.edge_section l) = false.
Proof.
  induction l as [|[a b] l IH]; [done|].
  cbn [Syntax.edge_section foldr]. fold (Syntax.edge_section l).
  unfold Syntax.edge. by rewrite !contains_append, !dec_without, IH.
Qed.

Lemma edges_of_second_section f e rest :
  Str.contains "/" f = false → Str.contains "/" e = false →
  Syntax.section_end rest →
  tucan_string_to_graph_edges (f +:+ "/" +:+ e +:+ rest) = edges_of_section e.
Proof.
  intros Hf He Hrest. unfold tucan_string_to_graph_edges.
  change ("/" +:+ e +:+ rest) with (String "/" (e +:+ rest)).
  by rewrite split_second_section.
Qed.

(** C6: the edges come out in the order of the bracketed pairs of the edge
    section, each pair as it is written; in particular the edge section
    [(1-5)(2-5)(3-6)] gives [(1,5), (2,5), (3,6)]. *)
Theorem edges_in_order f (l : list (nat * nat)) rest :
  Str.contains "/" f = false → Syntax.section_end rest →
  tucan_string_to_graph_edges (f +:+ "/" +:+ Syntax.edge_section l +:+ rest)
  = Ok ((λ ab, [Z.of_nat ab.1; Z.of_nat ab.2]) <$> l)
  ∧ tucan_string_to_graph_edges (f +:+ "/" +:+ "(1-5)(2-5)(3-6)" +:+ rest)
    = Ok [[1; 5]; [2; 5]; [3; 6]]%Z.
Proof.
  intros Hf Hrest. split.
  - rewrite edges_of_second_section by auto using edge_section_without_slash.
    apply edges_of_edge_section.
  - by rewrite edges_of_second_section.
Qed.

Lemma edges_in_order_witness :
  Str.contains "/" "C2H6O" = false ∧ Syntax.section_end "/x" ∧
  tucan_string_to_graph_edges "C2H6O/(1-7)(2-7)(10-12)/x"
  = Ok [[1; 7]; [2; 7]; [10; 12]]%Z.
Proof.
  split; [reflexivity|]. split; [right; by exists "x"|].
  apply (edges_in_order "C2H6O" [(1, 7); (2, 7); (10, 12)] "/x");
    [reflexivity | right; by exists "x"].
Defined.

Lemma int_cases s : Int.int s = Raise ValueError ∨ ∃ n, Int.int s = Ok n.
Proof. unfold Int.int. destruct (Int.parse s); simpl; eauto. Qed.

Lemma comprehension_ok {A B} (f : A → result B) l :
  Forall (λ x, ∃ y, f x = Ok y) l → ∃ ys, comprehension f l = Ok ys.
Proof.
  induction 1 as [|x l [y Hy] _ [ys Hys]]; simpl; [eauto|].
  rewrite Hy, Hys. simpl. eauto.
Qed.

Lemma comprehension_cases {A B} (f : A → result B) e l :
  Forall (λ x, f x = Raise e ∨ ∃ y, f x = Ok y) l →
  comprehension f l = Raise e ∨ ∃ ys, comprehension f l = Ok ys.
Proof.
  induction 1 as [|x l Hx _ IH]; simpl; [eauto|].
  destruct Hx as [->|[y ->]]; simpl; [auto|].
  destruct IH as [->|[ys ->]]; simpl; eauto.
Qed.

Lemma comprehension_int_cases l :
  comprehension Int.int l = Raise ValueError
  ∨ ∃ ns, comprehension Int.int l = Ok ns.
Proof. apply comprehension_cases, Forall_forall. intros. apply int_cases. Qed.

(** C3, as stated, fails: the segments [(1-2-3] and [(4] do not split into two
    integers, and the call returns a triple and a single for them instead of
    raising. *)
Lemma malformed_segment_counterexample :
  Str.split "-" (Str.drop_first "(1-2-3") = ["1"; "2"; "3"]
  ∧ tucan_string_to_graph_edges "C2H4O/(1-5)(1-2-3)(4)"
    = Ok [[1; 5]; [1; 2; 3]; [4]]%Z.
Proof. split; reflexivity. Qed.

(** C3, amended: every part of every segment that ends in a closing bracket
    is read as an integer.  One part that is no integer literal makes the
    call raise the error of [int]; otherwise there is one tuple for each
    segment, in order, with one integer for each part, so that a segment of
    [k] parts gives a tuple of length [k]. *)
Theorem edges_read_every_part tucan_string edge_section :
  Str.split "/" tucan_string !! 1 = Some edge_section →
  ((∃ segment part,
       segment ∈ removelast (Str.split ")" edge_section)
       ∧ part ∈ Str.split "-" (Str.drop_first segment)
       ∧ Int.parse part = None) →
   tucan_string_to_graph_edges tucan_string = Raise ValueError)
  ∧ ((∀ segment part,
        segment ∈ removelast (Str.split ")" edge_section) →
        part ∈ Str.split "-" (Str.drop_first segment) →
        is_Some (Int.parse part)) →
     ∃ es, tucan_string_to_graph_edges tucan_string = Ok es
           ∧ Forall2 (λ segment tuple,
                        Forall2 (λ part n, Int.parse part = Some n)
                                (Str.split "-" (Str.drop_first segment)) tuple)
                     (removelast (Str.split ")" edge_section)) es).
Proof.
  intros Hsection. unfold tucan_string_to_graph_edges. rewrite Hsection. simpl.
  unfold edges_of_section. rewrite comprehension_fmap.
  set (segments := removelast (Str.split ")" edge_section)).
  set (f := (λ edge, comprehension Int.int (Str.split "-" edge)) ∘ Str.drop_first).
  split.
  - intros (segment & part & Hseg & Hpart & Hbad).
    apply comprehension_raise.
    + apply Forall_forall. intros x _. apply comprehension_int_cases.
    + apply Exists_exists. exists segment. split; [done|].
      apply comprehension_raise.
      * apply Forall_forall. intros y _. apply int_cases.
      * apply Exists_exists. exists part. split; [done|].
        unfold Int.int. by rewrite Hbad.
  - intros Hall.
    assert (∃ es, comprehension f segments = Ok es) as [es Hes].
    { apply comprehension_ok, Forall_forall. intros segment Hseg.
      apply comprehension_ok, Forall_forall. intros part Hpart.
      destruct (Hall segment part Hseg Hpart) as [n Hn]. exists n.
      unfold Int.int. by rewrite Hn. }
    exists es. split; [done|].
    apply comprehension_Forall2 in Hes.
    eapply Forall2_impl; [exact Hes|]. intros segment tuple Htuple.
    apply comprehension_Forall2 in Htuple.
    eapply Forall2_impl; [exact Htuple|]. intros part n.
    unfold Int.int. by destruct (Int.parse part); intros [=]; subst.
Qed.

Lemma edges_read_every_part_witness :
  Str.split "/" "C2H4O/(1-5)(1-2-3)(x-1)" !! 1 = Some "(1-5)(1-2-3)(x-1)"
  ∧ tucan_string_to_graph_edges "C2H4O/(1-5)(1-2-3)(x-1)" = Raise ValueError.
Proof.
  split; [reflexivity|].
  apply (edges_read_every_part "C2H4O/(1-5)(1-2-3)(x-1)" "(1-5)(1-2-3)(x-1)");
    [reflexivity|].
  exists "(x-1", "x". split; [|split; [|reflexivity]].
  - do 2 right. left.
  - left.
Defined.

(** C10, as stated, fails: the edge section [(a-b)x] does not end in a
    closing bracket, and the call raises, because of the segment before the
    bracket. *)
Lemma unterminated_section_counterexample :
  Str.split "/" "C2H4O/(a-b)x" = ["C2H4O"; "(a-b)x"]
  ∧ tucan_string_to_graph_edges "C2H4O/(a-b)x" = Raise ValueError.
Proof. split; reflexivity. Qed.

Lemma edges_of_section_tail p t :
  Str.contains ")" t = false → edges_of_section (p +:+ t) = edges_of_section p.
Proof. intros Ht. unfold edges_of_section. by rewrite removelast_split_append. Qed.

(** C10, amended: what follows the last closing bracket of the edge section
    is dropped without an error of its own, so the call gives what it gives
    for the section cut after that bracket; a section with no closing
    bracket at all, the empty one included, gives the empty list of edges.
    An error can still come from a segment before the last bracket. *)
Theorem edges_discard_tail f p t rest :
  Str.contains "/" f = false → Str.contains "/" p = false →
  Str.contains "/" t = false → Str.contains ")" t = false →
  Syntax.section_end rest →
  tucan_string_to_graph_edges (f +:+ "/" +:+ (p +:+ t) +:+ rest)
  = tucan_string_to_graph_edges (f +:+ "/" +:+ p +:+ rest)
  ∧ (Str.contains ")" p = false →
     tucan_string_to_graph_edges (f +:+ "/" +:+ (p +:+ t) +:+ rest) = Ok []).
Proof.
  intros Hf Hp Ht Hclose Hrest.
  rewrite !edges_of_second_section; try done.
  - rewrite edges_of_section_tail by done. split; [done|]. intros Hp'.
    unfold edges_of_section. by rewrite split_without.
  - by rewrite contains_append, Hp, Ht.
Qed.

Lemma edges_discard_tail_witness :
  Str.contains "/" "C2H4O" = false ∧ Str.contains "/" "(1-5)(2-5)" = false
  ∧ Str.contains "/" "(3-" = false ∧ Str.contains ")" "(3-" = false
  ∧ Syntax.section_end ""
  ∧ tucan_string_to_graph_edges "C2H4O/(1-5)(2-5)(3-"
    = tucan_string_to_graph_edges "C2H4O/(1-5)(2-5)".
Proof.
  do 4 (split; [reflexivity|]). split; [by left|].
  apply (edges_discard_tail "C2H4O" "(1-5)(2-5)" "(3-" "");
    [reflexivity | reflexivity | reflexivity | reflexivity | by left].
Defined.

(** ** Dictionaries *)

Section dict_facts.
Context {K V : Type} `{EqDecision K}.
Implicit Types (d : pydict K V) (k : K) (v : V).

Lemma set_fresh k v d : k ∉ Dict.keys d → Dict.set k v d = d ++ [(k, v)].
Proof.
  unfold Dict.keys. induction d as [|[k' v'] d IH]; simpl; [done|].
  intros Hk. rewrite not_elem_of_cons in Hk. destruct Hk as [Hne Hk].
  rewrite decide_False by done. by rewrite IH.
Qed.

Lemma keys_set k v d :
  Dict.keys (Dict.set k v d)
  = if decide (k ∈ Dict.keys d) then Dict.keys d else Dict.keys d ++ [k].
Proof.
  unfold Dict.keys. induction d as [|[k' v'] d IH].
  - by destruct (decide (k ∈ ([] : pydict K V).*1)) as [?%elem_of_nil|].
  - cbn [Dict.set]. destruct (decide (k = k')) as [->|Hne].
    + rewrite decide_True; [done|]. by left.
    + cbn [fmap list_fmap fst]. fold (@fmap list _ _ _ (@fst K V)).
      rewrite IH. destruct (decide (k ∈ d.*1)) as [Hin|Hout].
      * rewrite decide_True; [done|]. by right.
      * rewrite decide_False; [done|]. rewrite not_elem_of_cons. done.
Qed.

Lemma wf_set k v d : Dict.wf d → Dict.wf (Dict.set k v d).
Proof.
  unfold Dict.wf. rewrite keys_set. case_decide; [done|].
  intros Hd. apply NoDup_app. split_and!; [done| |apply NoDup_singleton].
  intros x Hx ->%list_elem_of_singleton. done.
Qed.

Lemma get_set k v d k' :
  Dict.get k' (Dict.set k v d) = if decide (k' = k) then Some v else Dict.get k' d.
Proof.
  induction d as [|[k0 v0] d IH]; simpl.
  - by destruct (decide (k' = k)).
  - destruct (decide (k = k0)) as [->|Hne]; simpl.
    + by destruct (decide (k' = k0)).
    + rewrite IH. destruct (decide (k' = k0)) as [->|]; [|done].
      by rewrite decide_False.
Qed.

Lemma get_None k d : Dict.get k d = None ↔ k ∉ Dict.keys d.
Proof.
  unfold Dict.keys. induction d as [|[k' v'] d IH]; simpl.
  - split; [intros _; apply not_elem_of_nil | done].
  - rewrite not_elem_of_cons. destruct (decide (k = k')); intuition congruence.
Qed.

Lemma get_Some k v d : Dict.wf d → Dict.get k d = Some v ↔ (k, v) ∈ d.
Proof.
  unfold Dict.wf, Dict.keys. induction d as [|[k' v'] d IH]; simpl.
  - intros _. split; [done|]. by intros ?%elem_of_nil.
  - intros [Hk' Hd]%NoDup_cons. rewrite elem_of_cons.
    destruct (decide (k = k')) as [->|Hne].
    + split; [intros [= ->]; by left|].
      intros [[= ->]|Hin]; [done|]. destruct Hk'.
      apply list_elem_of_fmap. by exists (k', v).
    + rewrite IH by done. intuition congruence.
Qed.

Lemma wf_NoDup d : Dict.wf d → NoDup d.
Proof. apply NoDup_fmap_1. Qed.

(** Two dictionaries with the same entries hold them in orders that are
    permutations of each other. *)
Lemma same_Permutation d1 d2 :
  Dict.wf d1 → Dict.wf d2 → Dict.same d1 d2 → d1 ≡ₚ d2.
Proof.
  intros Hwf1 Hwf2 Hsame.
  apply NoDup_Permutation; [by apply wf_NoDup..|].
  intros [k v]. rewrite <- !get_Some by done. by rewrite (Hsame k).
Qed.

Lemma foldl_set_fresh acc l :
  NoDup (Dict.keys (acc ++ l)) →
  foldl (λ d kv, Dict.set kv.1 kv.2 d) acc l = acc ++ l.
Proof.
  revert acc. induction l as [|[k v] l IH]; intros acc Hnd; simpl.
  - by rewrite app_nil_r.
  - rewrite set_fresh.
    + rewrite IH; rewrite <- app_assoc; done.
    + unfold Dict.keys in *. rewrite fmap_app in Hnd. simpl in Hnd.
      apply NoDup_app in Hnd as (_ & Hdisj & _).
      intros Hin. apply (Hdisj k Hin). by left.
Qed.

(** [dict(pairs)] keeps a list of pairs with distinct keys as it is. *)
Lemma of_pairs_distinct (l : list (K * V)) :
  NoDup (Dict.keys l) → Dict.of_pairs l = l.
Proof. intros Hnd. unfold Dict.of_pairs. by rewrite foldl_set_fresh. Qed.

Lemma wf_foldl_set {A} (f : A → K * V) d (l : list A) :
  Dict.wf d → Dict.wf (foldl (λ d x, Dict.set (f x).1 (f x).2 d) d l).
Proof.
  revert d. induction l as [|x l IH]; intros d Hd; simpl; [done|].
  by apply IH, wf_set.
Qed.
End dict_facts.

(** ** The order of [sorted] *)

Global Instance item_le_transitive : Transitive item_le.
Proof. intros [??] [??] [??]. unfold item_le. simpl. lia. Qed.

Global Instance item_le_total : Total item_le.
Proof. intros [??] [??]. unfold item_le. simpl. lia. Qed.

Global Instance item_le_antisymm : AntiSymm (=) item_le.
Proof.
  intros [k1 v1] [k2 v2]. unfold item_le. simpl. intros H1 H2.
  assert (k1 = k2) as -> by lia. f_equal. lia.
Qed.

Lemma sorted_Permutation l : sorted l ≡ₚ l.
Proof. apply merge_sort_Permutation. Qed.

Lemma sorted_StronglySorted l : StronglySorted item_le (sorted l).
Proof. apply StronglySorted_merge_sort; apply _. Qed.

(** [sorted] gives the same list for every order of the same items. *)
Lemma sorted_unique l1 l2 : l1 ≡ₚ l2 → sorted l1 = sorted l2.
Proof.
  intros Hperm. apply (Sorted_unique item_le).
  - apply Sorted_merge_sort, _.
  - apply Sorted_merge_sort, _.
  - by rewrite !sorted_Permutation.
Qed.

Lemma StronglySorted_lookup_lt (l : list nat) i j a b :
  StronglySorted le l → l !! i = Some a → l !! j = Some b → a < b → i < j.
Proof.
  intros Hl. revert i j. induction Hl as [|x l Hl IH Hx]; intros i j Hi Hj Hab.
  - done.
  - destruct i as [|i], j as [|j]; simpl in *.
    + simplify_eq. lia.
    + lia.
    + simplify_eq. apply list_elem_of_lookup_2 in Hi.
      rewrite Forall_forall in Hx. specialize (Hx _ Hi). lia.
    + apply ->Nat.succ_lt_mono. eauto.
Qed.

(** ** The lookup tables *)

Section table_facts.
Variable element_symbols : list string.

Lemma lookup_tables_invariant (l : list string) j (a : gmap string nat) (n : gmap nat string) :
  (∀ e k, a !! e = Some k → 1 ≤ k ≤ j ∧ n !! k = Some e) →
  ∀ e k,
    (foldl (λ tables ie,
              (<[ie.2 := ie.1 + 1]> tables.1, <[ie.1 + 1 := ie.2]> tables.2))
           (a, n) (zip (seq j (length l)) l)).1 !! e = Some k →
    1 ≤ k
    ∧ (foldl (λ tables ie,
                (<[ie.2 := ie.1 + 1]> tables.1, <[ie.1 + 1 := ie.2]> tables.2))
             (a, n) (zip (seq j (length l)) l)).2 !! k = Some e.
Proof.
  revert j a n. induction l as [|x l IH]; intros j a n Hinv e k; simpl.
  - intros Hk. destruct (Hinv e k Hk). split; [lia|done].
  - apply IH. clear e k. intros e k.
    destruct (decide (e = x)) as [->|Hne].
    + rewrite lookup_insert_eq. intros [= <-].
      rewrite lookup_insert_eq. split; [lia|done].
    + rewrite lookup_insert_ne by done. intros Hk.
      destruct (Hinv e k Hk) as [Hle Hn].
      rewrite lookup_insert_ne by lia. split; [lia|done].
Qed.

(** The two tables agree: the number of a symbol is at least one and leads
    back to the symbol. *)
Lemma atom_number_number_atom e k :
  atom_number_dict element_symbols !! e = Some k →
  1 ≤ k ∧ number_atom_dict element_symbols !! k = Some e.
Proof.
  unfold atom_number_dict, number_atom_dict, lookup_tables, enumerate.
  apply lookup_tables_invariant. intros ?? Hk. by rewrite lookup_empty in Hk.
Qed.

(** Two symbols never share an atomic number. *)
Lemma atom_number_inj e1 e2 k :
  atom_number_dict element_symbols !! e1 = Some k →
  atom_number_dict element_symbols !! e2 = Some k → e1 = e2.
Proof.
  intros [_ H1]%atom_number_number_atom [_ H2]%atom_number_number_atom.
  congruence.
Qed.
End table_facts.

(** ** Numbering the nodes *)

Lemma get_zip_seq {A} (l : list A) j i :
  Dict.get i (zip (seq j (length l)) l)
  = if decide (j ≤ i) then l !! (i - j) else None.
Proof.
  revert j. induction l as [|x l IH]; intros j; simpl.
  - by case_decide.
  - destruct (decide (i = j)) as [->|Hne].
    + rewrite decide_True by lia. by rewrite Nat.sub_diag.
    + rewrite IH. destruct (decide (j ≤ i)) as [Hle|Hgt].
      * rewrite decide_True by lia.
        replace (i - j) with (S (i - S j)) by lia. done.
      * by rewrite decide_False by lia.
Qed.

Lemma get_numbered {A} (l : list A) i x :
  Dict.get i (numbered l) = Some x ↔ 1 ≤ i ∧ l !! (i - 1) = Some x.
Proof. unfold numbered. rewrite get_zip_seq. case_decide; intuition (done || lia). Qed.

Lemma keys_numbered {A} (l : list A) : Dict.keys (numbered l) = seq 1 (length l).
Proof. unfold Dict.keys, numbered. apply fst_zip. by rewrite length_seq. Qed.

Lemma length_numbered {A} (l : list A) : length (numbered l) = length l.
Proof. unfold numbered. rewrite length_zip, length_seq. lia. Qed.

Lemma foldl_set_numbered {A} (l : list A) acc j :
  (∀ k, k ∈ Dict.keys acc → k ≤ j) →
  foldl (λ graph_nodes ie, Dict.set (ie.1 + 1) ie.2 graph_nodes) acc
        (zip (seq j (length l)) l)
  = acc ++ zip (seq (S j) (length l)) l.
Proof.
  revert acc j. induction l as [|x l IH]; intros acc j Hacc; simpl.
  - by rewrite app_nil_r.
  - rewrite set_fresh.
    + rewrite IH.
      * rewrite <- app_assoc. simpl. by rewrite Nat.add_1_r.
      * intros k. unfold Dict.keys. rewrite fmap_app, elem_of_app. simpl.
        rewrite list_elem_of_singleton. intros [Hk| ->]; [|lia].
        specialize (Hacc k Hk). lia.
    + intros Hin. specialize (Hacc _ Hin). lia.
Qed.

(** The last loop of [graph_nodes_from_element_count] numbers the nodes
    from one. *)
Lemma enumerate_numbered {A} (l : list A) :
  foldl (λ graph_nodes ie, Dict.set (ie.1 + 1) ie.2 graph_nodes) [] (enumerate l)
  = numbered l.
Proof.
  unfold enumerate, numbered. rewrite foldl_set_numbered; [done|].
  by intros k ?%elem_of_nil.
Qed.

(** ** The node labeler *)

Section node_facts.
Variable element_symbols : list string.
Abbreviation atom := (atom_number_dict element_symbols).
Abbreviation number := (number_atom_dict element_symbols).
Abbreviation known := (Forall (λ kv : string * Z, is_Some (atom !! kv.1))).

Lemma comprehension_atom_numbers d :
  known d →
  comprehension (λ kv : string * Z,
                   n ← or_raise KeyError (atom !! kv.1); Ok (n, kv.2)) d
  = Ok (by_atom_number element_symbols d).
Proof.
  intros Hd. apply comprehension_total.
  eapply Forall_impl; [exact Hd|]. intros [e v] [k Hk]. simpl in *.
  by rewrite Hk.
Qed.

Lemma comprehension_atom_numbers_raise (d : pydict string Z) :
  Exists (λ kv, atom !! kv.1 = None) d →
  comprehension (λ kv : string * Z,
                   n ← or_raise KeyError (atom !! kv.1); Ok (n, kv.2)) d
  = Raise KeyError.
Proof.
  intros Hd. apply comprehension_raise.
  - apply Forall_forall. intros [e v] _. simpl.
    destruct (atom !! e); simpl; eauto.
  - eapply Exists_impl; [exact Hd|]. intros [e v] He. simpl in *.
    by rewrite He.
Qed.

Lemma by_atom_number_distinct d :
  Dict.wf d → known d → NoDup (Dict.keys (by_atom_number element_symbols d)).
Proof.
  intros Hwf Hd. unfold Dict.keys, by_atom_number.
  rewrite <- list_fmap_compose.
  apply NoDup_fmap_2_strong; [|by apply wf_NoDup].
  intros [e1 v1] [e2 v2] H1 H2. simpl. intros Heq.
  rewrite Forall_forall in Hd.
  destruct (Hd _ H1) as [k1 Hk1], (Hd _ H2) as [k2 Hk2]. simpl in *.
  rewrite Hk1, Hk2 in Heq. simpl in Heq. subst k2.
  assert (e1 = e2) as -> by eauto using atom_number_inj.
  apply get_Some in H1, H2; try done. congruence.
Qed.

Lemma by_atom_number_elem_of d k v :
  known d → (k, v) ∈ by_atom_number element_symbols d →
  ∃ e, (e, v) ∈ d ∧ atom !! e = Some k ∧ number !! k = Some e.
Proof.
  intros Hd. unfold by_atom_number. intros ([e v'] & [= -> ->] & Hin)%list_elem_of_fmap.
  rewrite Forall_forall in Hd. destruct (Hd _ Hin) as [k Hk]. simpl in *.
  exists e. rewrite Hk. simpl. split_and!; [done..|].
  by apply atom_number_number_atom.
Qed.

Lemma append_copies_ok key n node_list e :
  number !! key = Some e →
  append_copies element_symbols key n node_list = Ok (node_list ++ replicate n e).
Proof.
  intros Hkey. revert node_list.
  induction n as [|n IH]; intros node_list; simpl.
  - by rewrite app_nil_r.
  - rewrite Hkey. simpl. rewrite IH. by rewrite <- app_assoc.
Qed.

Lemma for_each_append_copies l node_list :
  Forall (λ kv : nat * Z, is_Some (number !! kv.1)) l →
  for_each (λ node_list kv,
              append_copies element_symbols kv.1 (Z.to_nat kv.2) node_list)
           node_list l
  = Ok (node_list ++ expand element_symbols l).
Proof.
  intros Hl. revert node_list.
  induction Hl as [|[k v] l [e He] _ IH]; intros node_list; simpl.
  - by rewrite app_nil_r.
  - simpl in He. rewrite (append_copies_ok _ _ _ e) by done. simpl.
    rewrite IH. unfold expand. simpl. by rewrite He, app_assoc.
Qed.

(** What [graph_nodes_from_element_count] returns for a mapping whose
    symbols are all in the table: the items are put in the order of the
    atomic numbers, every item is replaced by as many copies of its element
    as it counts, and the nodes are numbered from one. *)
Lemma graph_nodes_known d :
  Dict.wf d → known d →
  graph_nodes_from_element_count element_symbols d
  = Ok (numbered (expand element_symbols
                         (sorted (by_atom_number element_symbols d)))).
Proof.
  intros Hwf Hd. unfold graph_nodes_from_element_count, Dict.items.
  rewrite comprehension_atom_numbers by done. simpl.
  rewrite (of_pairs_distinct (by_atom_number _ d))
    by by apply by_atom_number_distinct.
  rewrite of_pairs_distinct.
  - rewrite for_each_append_copies; [simpl; by rewrite enumerate_numbered|].
    apply Forall_forall. intros [k v] Hin.
    rewrite sorted_Permutation in Hin.
    apply by_atom_number_elem_of in Hin as (e & _ & _ & He); [|done].
    by exists e.
  - unfold Dict.keys. rewrite sorted_Permutation.
    by apply by_atom_number_distinct.
Qed.

(** A symbol that is not in the table makes the call raise [KeyError]. *)
Lemma graph_nodes_unknown (d : pydict string Z) :
  Exists (λ kv, atom !! kv.1 = None) d →
  graph_nodes_from_element_count element_symbols d = Raise KeyError.
Proof.
  intros Hd. unfold graph_nodes_from_element_count, Dict.items.
  by rewrite comprehension_atom_numbers_raise.
Qed.
End node_facts.

(** ** Properties of the node mapping *)

Lemma StronglySorted_copies (l : list (nat * Z)) :
  StronglySorted item_le l →
  StronglySorted le (l ≫= λ kv, replicate (Z.to_nat kv.2) kv.1).
Proof.
  induction 1 as [|[k v] l Hl IH Hk]; simpl; [constructor|].
  apply StronglySorted_app_2; [| |done].
  - intros x1 x2 ->%elem_of_replicate_inv
      ([k' v'] & Hx2%elem_of_replicate_inv & Hin)%list_elem_of_bind.
    simpl in *. subst x2. rewrite Forall_forall in Hk.
    specialize (Hk _ Hin). unfold item_le in Hk. simpl in Hk. lia.
  - induction (Z.to_nat v) as [|n IHn]; simpl; constructor; [done|].
    by apply Forall_replicate.
Qed.

Lemma length_copies {A} (f : nat * Z → A) (l : list (nat * Z)) :
  length (l ≫= λ kv, replicate (Z.to_nat kv.2) (f kv))
  = sum_list_with (λ kv, Z.to_nat kv.2) l.
Proof.
  induction l as [|kv l IH]; [done|].
  rewrite bind_cons, length_app, length_replicate, IH. done.
Qed.

Lemma total_count_nonneg (d : pydict string Z) :
  Forall (λ kv, (0 ≤ kv.2)%Z) d →
  Z.of_nat (sum_list_with (λ kv, Z.to_nat kv.2) d) = total_count d.
Proof. induction 1 as [|kv d Hkv _ IH]; simpl; [done|]. lia. Qed.

Section node_properties.
Variable element_symbols : list string.
Abbreviation atom' := (atom_number_dict element_symbols).
Abbreviation number' := (number_atom_dict element_symbols).

Lemma expand_atom_numbers (l : list (nat * Z)) :
  Forall (λ kv, ∃ e, atom' !! e = Some kv.1) l →
  (λ e, default 0 (atom' !! e)) <$> expand element_symbols l
  = l ≫= λ kv, replicate (Z.to_nat kv.2) kv.1.
Proof.
  unfold expand. induction 1 as [|[k v] l [e He] _ IH]; [done|].
  simpl in He. rewrite !bind_cons, fmap_app, fmap_replicate, IH.
  destruct (atom_number_number_atom _ _ _ He) as [_ Hk].
  by cbn [fst snd]; rewrite Hk; simpl; rewrite He.
Qed.

(** C1: for a mapping whose symbols are all in the table the call returns a
    node mapping whose keys are 1, 2, ..., N in this order, and a node of an
    element with a smaller atomic number has a smaller node id than a node
    of an element with a larger one. *)
Theorem node_ids_contiguous_and_ordered (d : pydict string Z) :
  Dict.wf d → Forall (λ kv, is_Some (atom' !! kv.1)) d →
  ∃ graph_nodes,
    graph_nodes_from_element_count element_symbols d = Ok graph_nodes
    ∧ Dict.keys graph_nodes = seq 1 (length graph_nodes)
    ∧ ∀ i j e1 e2 a1 a2,
        Dict.get i graph_nodes = Some e1 → Dict.get j graph_nodes = Some e2 →
        atom' !! e1 = Some a1 → atom' !! e2 = Some a2 →
        a1 < a2 → i < j.
Proof.
  intros Hwf Hd. eexists. split; [by apply graph_nodes_known|].
  split; [by rewrite keys_numbered, length_numbered|].
  intros i j e1 e2 a1 a2 [Hi He1]%get_numbered [Hj He2]%get_numbered Ha1 Ha2 Hlt.
  set (items := sorted (by_atom_number element_symbols d)) in *.
  assert ((λ e, default 0 (atom' !! e)) <$> expand element_symbols items
          = items ≫= λ kv, replicate (Z.to_nat kv.2) kv.1) as Hnumbers.
  { apply expand_atom_numbers, Forall_forall. intros [k v] Hin. unfold items in Hin.
    rewrite sorted_Permutation in Hin.
    apply by_atom_number_elem_of in Hin as (e & _ & He & _); [|done].
    by exists e. }
  assert (i - 1 < j - 1); [|lia].
  eapply (StronglySorted_lookup_lt _ _ _ a1 a2);
    [apply (StronglySorted_copies items), sorted_StronglySorted| | |done].
  - by rewrite <- Hnumbers, list_lookup_fmap, He1; simpl; rewrite Ha1.
  - by rewrite <- Hnumbers, list_lookup_fmap, He2; simpl; rewrite Ha2.
Qed.

Lemma by_atom_number_counts (d : pydict string Z) :
  sum_list_with (λ kv, Z.to_nat kv.2) (by_atom_number element_symbols d)
  = sum_list_with (λ kv, Z.to_nat kv.2) d.
Proof. induction d as [|kv d IH]; simpl; [done|]. by rewrite IH. Qed.

(** C5: for a mapping whose symbols are all in the table, and whose counts
    are not negative, the node mapping has as many entries as the counts
    add up to. *)
Theorem node_count_is_total_count (d : pydict string Z) :
  Dict.wf d → Forall (λ kv, is_Some (atom' !! kv.1)) d →
  Forall (λ kv, (0 ≤ kv.2)%Z) d →
  ∃ graph_nodes,
    graph_nodes_from_element_count element_symbols d = Ok graph_nodes
    ∧ Z.of_nat (length graph_nodes) = total_count d.
Proof.
  intros Hwf Hd Hcounts. eexists. split; [by apply graph_nodes_known|].
  rewrite length_numbered. unfold expand. rewrite length_copies.
  rewrite sorted_Permutation, by_atom_number_counts.
  by apply total_count_nonneg.
Qed.

(** The node mapping does not depend on the order in which the dictionary
    holds its entries. *)
Lemma graph_nodes_same (d1 d2 : pydict string Z) :
  Dict.wf d1 → Dict.wf d2 → Dict.same d1 d2 →
  graph_nodes_from_element_count element_symbols d1
  = graph_nodes_from_element_count element_symbols d2.
Proof.
  intros Hwf1 Hwf2 Hsame.
  assert (d1 ≡ₚ d2) as Hperm by by apply same_Permutation.
  destruct (decide (Forall (λ kv, is_Some (atom' !! kv.1)) d1)) as [Hd1|Hd1].
  - assert (Forall (λ kv, is_Some (atom' !! kv.1)) d2) as Hd2 by by rewrite <- Hperm.
    rewrite !graph_nodes_known by done.
    do 3 f_equal. apply sorted_unique. unfold by_atom_number.
    by rewrite Hperm.
  - assert (Exists (λ kv, atom' !! kv.1 = None) d1) as Hex1.
    { apply not_Forall_Exists in Hd1; [|apply _].
      eapply Exists_impl; [exact Hd1|]. intros [e v]. simpl.
      destruct (atom' !! e); [|done]. intros []. by eexists. }
    assert (Exists (λ kv, atom' !! kv.1 = None) d2) as Hex2 by by rewrite <- Hperm.
    by rewrite !graph_nodes_unknown.
Qed.
End node_properties.

Lemma node_ids_contiguous_and_ordered_witness :
  Dict.wf [("O", 1%Z); ("H", 2%Z)]
  ∧ Forall (λ kv : string * Z, is_Some (atom_number_dict first_elements !! kv.1))
           [("O", 1%Z); ("H", 2%Z)]
  ∧ ∃ graph_nodes,
      graph_nodes_from_element_count first_elements [("O", 1%Z); ("H", 2%Z)]
      = Ok graph_nodes
      ∧ Dict.keys graph_nodes = seq 1 (length graph_nodes)
      ∧ ∀ i j e1 e2 a1 a2,
          Dict.get i graph_nodes = Some e1 → Dict.get j graph_nodes = Some e2 →
          atom_number_dict first_elements !! e1 = Some a1 →
          atom_number_dict first_elements !! e2 = Some a2 →
          a1 < a2 → i < j.
Proof.
  assert (Dict.wf [("O", 1%Z); ("H", 2%Z)]) as Hwf.
  { unfold Dict.wf. apply (bool_decide_unpack _). vm_compute. exact I. }
  assert (Forall (λ kv : string * Z,
                    is_Some (atom_number_dict first_elements !! kv.1))
                 [("O", 1%Z); ("H", 2%Z)]) as Hknown.
  { repeat constructor; by eexists. }
  split; [exact Hwf|]. split; [exact Hknown|].
  exact (node_ids_contiguous_and_ordered first_elements _ Hwf Hknown).
Defined.

Lemma node_count_is_total_count_witness :
  Dict.wf [("O", 1%Z); ("H", 2%Z)]
  ∧ Forall (λ kv : string * Z, is_Some (atom_number_dict first_elements !! kv.1))
           [("O", 1%Z); ("H", 2%Z)]
  ∧ Forall (λ kv : string * Z, (0 ≤ kv.2)%Z) [("O", 1%Z); ("H", 2%Z)]
  ∧ ∃ graph_nodes,
      graph_nodes_from_element_count first_elements [("O", 1%Z); ("H", 2%Z)]
      = Ok graph_nodes
      ∧ Z.of_nat (length graph_nodes) = total_count [("O", 1%Z); ("H", 2%Z)].
Proof.
  assert (Dict.wf [("O", 1%Z); ("H", 2%Z)]) as Hwf.
  { unfold Dict.wf. apply (bool_decide_unpack _). vm_compute. exact I. }
  assert (Forall (λ kv : string * Z,
                    is_Some (atom_number_dict first_elements !! kv.1))
                 [("O", 1%Z); ("H", 2%Z)]) as Hknown.
  { repeat constructor; by eexists. }
  assert (Forall (λ kv : string * Z, (0 ≤ kv.2)%Z) [("O", 1%Z); ("H", 2%Z)])
    as Hcounts.
  { repeat constructor; simpl; lia. }
  split; [exact Hwf|]. split; [exact Hknown|]. split; [exact Hcounts|].
  exact (node_count_is_total_count first_elements _ Hwf Hknown Hcounts).
Defined.

(** ** The regular expressions *)

Lemma cons_head_prepend c w l :
  Str.cons_head c (Str.prepend w l) = Str.prepend (String c w) l.
Proof. by destruct l. Qed.

Lemma prepend_prepend w1 w2 l :
  Str.prepend w1 (Str.prepend w2 l) = Str.prepend (w1 +:+ w2) l.
Proof. destruct l; simpl; [done|]. by rewrite append_assoc. Qed.

Lemma prepend_empty l : Str.prepend EmptyString l = l.
Proof. by destruct l. Qed.

Lemma tail_cons_head c l : tail (Str.cons_head c l) = tail l.
Proof. by destruct l. Qed.

Lemma split_text_not_nil s : Re.split_text s ≠ []
with split_run_not_nil s : Re.split_run s ≠ [].
Proof.
  - destruct s as [|c r]; simpl; [done|].
    destruct (Char.is_digit c); [done|].
    specialize (split_text_not_nil r). by destruct (Re.split_text r).
  - destruct s as [|c r]; simpl; [done|].
    destruct (Char.is_digit c); [|done].
    specialize (split_run_not_nil r). by destruct (Re.split_run r).
Qed.

(** A run of digits ends where a character that is no digit, or the end of
    the string, follows. *)
Lemma split_run_end x :
  Str.starts_with Char.is_digit x = false →
  Re.split_run x = EmptyString :: Re.split_text x.
Proof. destruct x as [|c r]; simpl; [done|]. by intros ->. Qed.

Lemma split_run_digits ds x :
  Str.all Char.is_digit ds = true → Str.starts_with Char.is_digit x = false →
  Re.split_run (ds +:+ x) = ds :: Re.split_text x.
Proof.
  intros Hds Hx. induction ds as [|c r IH]; simpl.
  - by apply split_run_end.
  - simpl in Hds. apply andb_true_iff in Hds as [-> Hr]. by rewrite IH.
Qed.

Lemma split_text_digits ds x :
  Str.all Char.is_digit ds = true → ds ≠ EmptyString →
  Str.starts_with Char.is_digit x = false →
  Re.split_text (ds +:+ x) = EmptyString :: ds :: Re.split_text x.
Proof.
  intros Hds Hne Hx. destruct ds as [|c r]; [done|]. simpl in *.
  apply andb_true_iff in Hds as [-> Hr]. by rewrite split_run_digits.
Qed.

(** Text without digits stays in the piece it is read into. *)
Lemma split_text_prefix w x :
  Str.any Char.is_digit w = false →
  Re.split_text (w +:+ x) = Str.prepend w (Re.split_text x).
Proof.
  intros Hw. induction w as [|c r IH]; simpl.
  - by rewrite prepend_empty.
  - simpl in Hw. apply orb_false_iff in Hw as [-> Hr].
    by rewrite IH, cons_head_prepend.
Qed.

(** The first piece of the split holds no digit. *)
Lemma split_text_head s :
  ∃ t ts, Re.split_text s = t :: ts ∧ Str.any Char.is_digit t = false.
Proof.
  induction s as [|c r (t & ts & Hr & Ht)]; simpl; [by eexists _, _|].
  destruct (Char.is_digit c) eqn:Hc; [by eexists _, _|].
  rewrite Hr. simpl. eexists _, _. split; [done|]. simpl. by rewrite Hc.
Qed.

Lemma findall_without_capital s :
  Str.any Char.is_capital s = false → Re.findall_capital s = [].
Proof.
  induction s as [|c r IH]; simpl; [done|].
  intros [-> Hr]%orb_false_iff. auto.
Qed.

Lemma findall_skip r x :
  Str.any Char.is_capital r = false →
  Re.findall_capital (r +:+ x) = Re.findall_capital x.
Proof.
  induction r as [|c r IH]; simpl; [done|].
  intros [-> Hr]%orb_false_iff. auto.
Qed.

Lemma take_non_capital_append r x :
  Str.any Char.is_capital r = false →
  x = EmptyString ∨ Str.starts_with Char.is_capital x = true →
  Str.take_non_capital (r +:+ x) = r.
Proof.
  intros Hr Hx. induction r as [|c r IH]; simpl.
  - destruct Hx as [->|Hx]; [done|]. destruct x; simpl in *; [done|].
    by rewrite Hx.
  - simpl in Hr. apply orb_false_iff in Hr as [-> Hr]. by rewrite IH.
Qed.

(** Every match of [[A-Z][^A-Z]*] starts with its capital letter. *)
Lemma findall_not_empty s : Forall (λ m, m ≠ EmptyString) (Re.findall_capital s).
Proof.
  induction s as [|c r IH]; simpl; [done|].
  destruct (Char.is_capital c); [by constructor|done].
Qed.

(** ** Element symbols and numerals as text *)

Lemma symbol_parts sym :
  Syntax.is_symbol sym = true →
  ∃ c r, sym = String c r ∧ Char.is_capital c = true
         ∧ Str.all Syntax.is_lower r = true.
Proof.
  destruct sym as [|c r]; [done|]. simpl. intros [??]%andb_true_iff. eauto.
Qed.

Lemma lower_any_capital r :
  Str.all Syntax.is_lower r = true → Str.any Char.is_capital r = false.
Proof.
  induction r as [|c r IH]; simpl; [done|].
  intros [Hc Hr]%andb_true_iff. by rewrite (lower_not_capital c), IH.
Qed.

Lemma lower_any_digit r :
  Str.all Syntax.is_lower r = true → Str.any Char.is_digit r = false.
Proof.
  induction r as [|c r IH]; simpl; [done|].
  intros [Hc Hr]%andb_true_iff. by rewrite (lower_not_digit c), IH.
Qed.

Lemma lower_all_alpha r :
  Str.all Syntax.is_lower r = true → Str.all Char.is_alpha r = true.
Proof.
  induction r as [|c r IH]; simpl; [done|].
  intros [Hc Hr]%andb_true_iff. by rewrite (lower_is_alpha c), IH.
Qed.

Lemma symbol_without_digit sym :
  Syntax.is_symbol sym = true → Str.any Char.is_digit sym = false.
Proof.
  intros (c & r & -> & Hc & Hr)%symbol_parts. simpl.
  by rewrite (capital_not_digit c), lower_any_digit.
Qed.

Lemma symbol_all_alpha sym :
  Syntax.is_symbol sym = true → Str.all Char.is_alpha sym = true.
Proof.
  intros (c & r & -> & Hc & Hr)%symbol_parts. simpl.
  by rewrite (capital_is_alpha c), lower_all_alpha.
Qed.

Lemma symbol_without_slash sym :
  Syntax.is_symbol sym = true → Str.contains "/" sym = false.
Proof.
  intros Hsym%symbol_all_alpha. induction sym as [|c r IH]; [done|].
  simpl in Hsym. apply andb_true_iff in Hsym as [Hc Hr].
  apply contains_cons_false. split; [|by auto]. by intros ->.
Qed.

(** A symbol is the first match of the text it starts, when a capital letter
    or nothing follows it. *)
Lemma findall_symbol sym x :
  Syntax.is_symbol sym = true →
  x = EmptyString ∨ Str.starts_with Char.is_capital x = true →
  Re.findall_capital (sym +:+ x) = sym :: Re.findall_capital x.
Proof.
  intros (c & r & -> & Hc & Hr%lower_any_capital)%symbol_parts Hx. simpl.
  by rewrite Hc, take_non_capital_append, findall_skip.
Qed.

Lemma join_app l1 l2 : Syntax.join (l1 ++ l2) = Syntax.join l1 +:+ Syntax.join l2.
Proof.
  induction l1 as [|s l1 IH]; simpl; [done|]. by rewrite IH, append_assoc.
Qed.

Lemma join_symbols_start syms :
  Forall (λ sym, Syntax.is_symbol sym = true) syms →
  Syntax.join syms = EmptyString
  ∨ Str.starts_with Char.is_capital (Syntax.join syms) = true.
Proof.
  destruct 1 as [|sym syms (c & r & -> & Hc & _)%symbol_parts _]; [by left|].
  by right.
Qed.

Lemma findall_symbols syms :
  Forall (λ sym, Syntax.is_symbol sym = true) syms →
  Re.findall_capital (Syntax.join syms) = syms.
Proof.
  induction 1 as [|sym syms Hsym Hsyms IH]; [done|].
  simpl. rewrite findall_symbol by auto using join_symbols_start.
  by rewrite IH.
Qed.

Lemma join_symbols_without_digit syms :
  Forall (λ sym, Syntax.is_symbol sym = true) syms →
  Str.any Char.is_digit (Syntax.join syms) = false.
Proof.
  induction 1 as [|sym syms Hsym _ IH]; [done|].
  simpl. by rewrite any_append, symbol_without_digit, IH.
Qed.

Lemma join_symbols_isalpha syms :
  Forall (λ sym, Syntax.is_symbol sym = true) syms → syms ≠ [] →
  Str.isalpha (Syntax.join syms) = true.
Proof.
  intros Hsyms Hne.
  assert (Str.all Char.is_alpha (Syntax.join syms) = true) as Hall.
  { induction Hsyms as [|sym syms Hsym _ IH]; [done|].
    simpl. rewrite all_append, symbol_all_alpha by done.
    destruct syms; [done|]. by apply IH. }
  destruct Hsyms as [|sym syms (c & r & -> & _)%symbol_parts _]; done.
Qed.

Lemma dec_not_alpha n : Str.isalpha (Syntax.dec n) = false.
Proof.
  pose proof (dec_all_digit n) as Hall. pose proof (dec_not_empty n) as Hne.
  destruct (Syntax.dec n) as [|c r]; [done|]. simpl in *.
  apply andb_true_iff in Hall as [Hc _]. by rewrite (digit_not_alpha c).
Qed.

Lemma dec_without_capital n : Str.any Char.is_capital (Syntax.dec n) = false.
Proof.
  pose proof (dec_all_digit n) as Hall.
  induction (Syntax.dec n) as [|c r IH]; [done|]. simpl in *.
  apply andb_true_iff in Hall as [Hc Hr]. by rewrite (digit_not_capital c), IH.
Qed.

Lemma formula_start units :
  Forall (λ u, Syntax.is_symbol u.1 = true) units →
  Str.starts_with Char.is_digit (Syntax.formula units) = false.
Proof.
  destruct 1 as [|[sym c] units (x & r & Hsym & Hx & _)%symbol_parts _]; [done|].
  simpl in *. subst sym. simpl. by apply capital_not_digit.
Qed.

(** ** The tokenizer *)

Lemma element_count_run sum_form :
  element_count_from_sum_formula sum_form
  = tokenizer_run (tokens sum_form) (EmptyString, []).
Proof. reflexivity. Qed.

Lemma step_matches st tok ms :
  Re.findall_capital tok = ms → ms ≠ [] →
  tokenizer_step st tok
  = Ok (default EmptyString (last ms),
        foldl (λ d element, Dict.set element 1%Z d) st.2 (removelast ms)).
Proof.
  intros Hms Hne. destruct st as [prev d]. unfold tokenizer_step.
  rewrite Hms. by destruct ms as [|m [|m' ms]].
Qed.

Lemma step_number prev d tok n :
  Re.findall_capital tok = [] → Int.int tok = Ok n →
  tokenizer_step (prev, d) tok = Ok (prev, Dict.set prev n d).
Proof. intros Hms Hn. unfold tokenizer_step. by rewrite Hms, Hn. Qed.

Lemma run_cons tok toks st st' r :
  tokenizer_step st tok = Ok st' → tokenizer_run toks st' = Ok r →
  tokenizer_run (tok :: toks) st = Ok r.
Proof.
  unfold tokenizer_run. simpl. intros -> Hrun. simpl.
  destruct toks as [|tok' toks]; [|done].
  simpl in Hrun. by destruct st'.
Qed.

Lemma run_two a b st st1 prev d :
  tokenizer_step st a = Ok st1 → tokenizer_step st1 b = Ok (prev, d) →
  Str.isalpha b = false →
  tokenizer_run [a; b] st = Ok d.
Proof.
  intros Ha Hb Halpha. unfold tokenizer_run. simpl.
  rewrite Ha. simpl. rewrite Hb. simpl. by rewrite Halpha.
Qed.

Lemma tokens_cons2 a b l :
  l ≠ [] →
  (if decide (last (a :: b :: l) = Some EmptyString)
   then removelast (a :: b :: l) else a :: b :: l)
  = a :: b :: (if decide (last l = Some EmptyString) then removelast l else l).
Proof.
  intros Hl. destruct l as [|c l]; [done|].
  change (last (a :: b :: c :: l)) with (last (c :: l)).
  by case_decide.
Qed.

Lemma foldl_set_ones (d : pydict string Z) syms :
  foldl (λ d kv, Dict.set kv.1 kv.2 d) d ((λ sym, (sym, 1%Z)) <$> syms)
  = foldl (λ d element, Dict.set element 1%Z d) d syms.
Proof. revert d. induction syms as [|sym syms IH]; intros d; simpl; [done|]. apply IH. Qed.

Lemma foldl_set_last (d : pydict string Z) syms :
  syms ≠ [] →
  Dict.set (default EmptyString (last syms)) 1%Z
           (foldl (λ d element, Dict.set element 1%Z d) d (removelast syms))
  = foldl (λ d element, Dict.set element 1%Z d) d syms.
Proof.
  destruct syms as [|sym syms _] using rev_ind; [done|]. intros _.
  by rewrite last_snoc, removelast_last, foldl_app.
Qed.

Lemma join_symbols_not_empty syms :
  Forall (λ sym, Syntax.is_symbol sym = true) syms → syms ≠ [] →
  Syntax.join syms ≠ EmptyString.
Proof.
  destruct 1 as [|sym syms (c & r & -> & _)%symbol_parts _]; done.
Qed.

(** The run of the tokenizer over a well-formed formula, with the symbols
    [syms] already read into the first token: every unit is assigned once,
    in the order of the formula. *)
Lemma run_units units :
  Forall (λ u, Syntax.is_symbol u.1 = true) units →
  ∀ syms st,
    Forall (λ sym, Syntax.is_symbol sym = true) syms →
    syms ≠ [] ∨ units ≠ [] →
    tokenizer_run
      (let l := Str.prepend (Syntax.join syms)
                            (Re.split_text (Syntax.formula units)) in
       if decide (last l = Some EmptyString) then removelast l else l) st
    = Ok (foldl (λ d kv, Dict.set kv.1 kv.2 d) st.2
                (((λ sym, (sym, 1%Z)) <$> syms) ++ Syntax.assignments units)).
Proof.
  induction 1 as [|[sym [n|]] units Hsym Hunits IH]; intros syms st Hsyms Hne.
  - destruct Hne as [Hne|]; [|done]. simpl. rewrite append_nil_r.
    rewrite decide_False.
    2:{ intros [= Heq]. by eapply join_symbols_not_empty. }
    unfold tokenizer_run. simpl.
    rewrite (step_matches st _ syms) by auto using findall_symbols. simpl.
    rewrite join_symbols_isalpha by done.
    by rewrite foldl_set_last, app_nil_r, foldl_set_ones.
  - simpl in Hsym. cbn [Syntax.formula foldr]. fold (Syntax.formula units).
    cbn [fst snd Syntax.count_text].
    rewrite split_text_prefix by by apply symbol_without_digit.
    rewrite split_text_digits
      by auto using dec_all_digit, dec_not_empty, formula_start.
    cbn [Str.prepend]. rewrite append_nil_r.
    rewrite tokens_cons2 by apply split_text_not_nil.
    assert (tokenizer_step st (Syntax.join syms +:+ sym)
            = Ok (sym, foldl (λ d element, Dict.set element 1%Z d) st.2 syms))
      as Hstep1.
    { rewrite (step_matches st _ (syms ++ [sym])).
      - by rewrite last_snoc, removelast_last.
      - replace sym with (Syntax.join [sym]) at 1 by apply append_nil_r.
        rewrite <- join_app. apply findall_symbols.
        apply Forall_app. split; [done|]. by constructor.
      - by destruct syms. }
    assert (∀ d, tokenizer_step (sym, d) (Syntax.dec n)
                 = Ok (sym, Dict.set sym (Z.of_nat n) d)) as Hstep2.
    { intros d. apply step_number; [|apply int_dec].
      apply findall_without_capital, dec_without_capital. }
    assert (foldl (λ d kv, Dict.set kv.1 kv.2 d) st.2
              (((λ sym, (sym, 1%Z)) <$> syms)
                 ++ Syntax.assignments ((sym, Some n) :: units))
            = foldl (λ d kv, Dict.set kv.1 kv.2 d)
                (Dict.set sym (Z.of_nat n)
                   (foldl (λ d element, Dict.set element 1%Z d) st.2 syms))
                (Syntax.assignments units)) as ->.
    { by rewrite foldl_app, foldl_set_ones. }
    destruct units as [|u units].
    + change (Re.split_text (Syntax.formula [])) with [EmptyString].
      rewrite decide_True by done.
      apply (run_two _ _ _ _ sym _ Hstep1 (Hstep2 _)), dec_not_alpha.
    + eapply run_cons; [exact Hstep1|].
      eapply run_cons; [apply Hstep2|].
      specialize (IH [] (sym, Dict.set sym (Z.of_nat n)
                 (foldl (λ d element, Dict.set element 1%Z d) st.2 syms))).
      simpl in IH. rewrite prepend_empty in IH. apply IH; [done|by right].
  - simpl in Hsym. cbn [Syntax.formula foldr]. fold (Syntax.formula units).
    cbn [fst snd Syntax.count_text]. simpl (EmptyString +:+ _).
    rewrite split_text_prefix by by apply symbol_without_digit.
    rewrite prepend_prepend.
    replace (Syntax.join syms +:+ sym) with (Syntax.join (syms ++ [sym])).
    2:{ rewrite join_app. simpl. by rewrite append_nil_r. }
    rewrite IH.
    + by rewrite fmap_app, <- app_assoc.
    + apply Forall_app. split; [done|]. by constructor.
    + left. by destruct syms.
Qed.

(** The tokenizer on a well-formed formula: the dictionary that results from
    assigning every unit in turn. *)
Lemma element_count_of_formula units :
  units ≠ [] → Forall (λ u, Syntax.is_symbol u.1 = true) units →
  element_count_from_sum_formula (Syntax.formula units)
  = Ok (Dict.of_pairs (Syntax.assignments units)).
Proof.
  intros Hne Hunits. rewrite element_count_run.
  pose proof (run_units units Hunits [] (EmptyString, []) (Forall_nil_2 _)
                (or_intror Hne)) as Hrun.
  simpl in Hrun. rewrite prepend_empty in Hrun. exact Hrun.
Qed.

(** ** What the tokenizer can raise *)

Lemma for_each_invariant {A S} (P : S → Prop) (body : S → A → result S) l s s' :
  (∀ s x s', P s → body s x = Ok s' → P s') →
  P s → for_each body s l = Ok s' → P s'.
Proof.
  intros Hbody. revert s. induction l as [|x l IH]; intros s Hs; simpl.
  - by intros [= <-].
  - destruct (body s x) as [s1|e] eqn:Hx; simpl; [|done]. eauto.
Qed.

Lemma for_each_cases {A S} (body : S → A → result S) e l s :
  (∀ s x, body s x = Raise e ∨ ∃ s', body s x = Ok s') →
  for_each body s l = Raise e ∨ ∃ s', for_each body s l = Ok s'.
Proof.
  intros Hbody. revert s. induction l as [|x l IH]; intros s; simpl; [eauto|].
  destruct (Hbody s x) as [->|[s1 ->]]; simpl; auto.
Qed.

(** A loop whose body can only raise [e] raises [e] when it meets an element
    on which the body raises in every state. *)
Lemma for_each_raise {A S} (body : S → A → result S) e l x s :
  (∀ s y, body s y = Raise e ∨ ∃ s', body s y = Ok s') →
  x ∈ l → (∀ s, body s x = Raise e) →
  for_each body s l = Raise e.
Proof.
  intros Hbody Hin Hx. revert s.
  induction Hin as [x l|x y l Hin IH]; intros s; simpl.
  - by rewrite Hx.
  - destruct (Hbody s y) as [->|[s1 ->]]; simpl; auto.
Qed.

Lemma any_strip_left p s :
  Str.any p s = false → Str.any p (Str.strip_left s) = false.
Proof.
  induction s as [|c r IH]; simpl; [done|].
  intros [Hc Hr]%orb_false_iff. destruct (Char.is_space c); [auto|].
  simpl. by rewrite Hc, Hr.
Qed.

Lemma any_strip_right p s :
  Str.any p s = false → Str.any p (Str.strip_right s) = false.
Proof.
  induction s as [|c r IH]; simpl; [done|].
  intros [Hc Hr]%orb_false_iff. specialize (IH Hr).
  destruct (Str.strip_right r) as [|c' r'].
  - destruct (Char.is_space c); simpl; [done|]. by rewrite Hc.
  - simpl in *. by rewrite Hc, IH.
Qed.

Lemma digits_without_digit acc s :
  Str.starts_with Char.is_digit s = false → Int.digits acc false s = None.
Proof.
  destruct s as [|c r]; simpl; [done|]. intros ->. by case_decide.
Qed.

Lemma any_starts_with p s : Str.any p s = false → Str.starts_with p s = false.
Proof. destruct s; simpl; [done|]. by intros [??]%orb_false_iff. Qed.

(** [int] needs a digit. *)
Lemma parse_without_digit s : Str.any Char.is_digit s = false → Int.parse s = None.
Proof.
  intros Hs%any_strip_left%any_strip_right. unfold Int.parse.
  destruct (Str.strip_right (Str.strip_left s)) as [|c r]; [done|].
  simpl in Hs. apply orb_false_iff in Hs as [Hc Hr].
  repeat case_decide.
  - by apply digits_without_digit, any_starts_with.
  - by rewrite digits_without_digit by by apply any_starts_with.
  - apply digits_without_digit. done.
Qed.

Lemma step_cases st tok :
  tokenizer_step st tok = Raise ValueError ∨ ∃ st', tokenizer_step st tok = Ok st'.
Proof.
  destruct st as [prev d]. unfold tokenizer_step.
  destruct (Re.findall_capital tok) as [|m [|m' ms]]; [|eauto..].
  destruct (int_cases tok) as [->|[n ->]]; simpl; eauto.
Qed.

(** A token with neither a capital letter nor a digit stops the loop. *)
Lemma step_without_symbol st tok :
  Str.any Char.is_capital tok = false → Str.any Char.is_digit tok = false →
  tokenizer_step st tok = Raise ValueError.
Proof.
  intros Hcap Hdig. destruct st as [prev d]. unfold tokenizer_step.
  rewrite findall_without_capital by done.
  unfold Int.int. by rewrite parse_without_digit.
Qed.

Lemma run_raise toks st :
  for_each tokenizer_step st toks = Raise ValueError →
  tokenizer_run toks st = Raise ValueError.
Proof. unfold tokenizer_run. by intros ->. Qed.

Lemma run_cases toks st :
  tokenizer_run toks st = Raise ValueError
  ∨ tokenizer_run toks st = Raise IndexError
  ∨ ∃ d, tokenizer_run toks st = Ok d.
Proof.
  unfold tokenizer_run.
  destruct (for_each_cases tokenizer_step ValueError toks st step_cases)
    as [->|[[prev d] ->]]; simpl; [auto|].
  destruct (last toks); simpl; eauto.
Qed.

Lemma wf_foldl_set_ones (d : pydict string Z) l :
  Dict.wf d → Dict.wf (foldl (λ d element, Dict.set element 1%Z d) d l).
Proof.
  revert d. induction l as [|x l IH]; intros d Hd; simpl; [done|].
  by apply IH, wf_set.
Qed.

Lemma step_wf st tok st' :
  Dict.wf st.2 → tokenizer_step st tok = Ok st' → Dict.wf st'.2.
Proof.
  destruct st as [prev d]. unfold tokenizer_step. simpl. intros Hwf.
  destruct (Re.findall_capital tok) as [|m [|m' ms]].
  - destruct (Int.int tok); simpl; [|done]. intros [= <-]. by apply wf_set.
  - by intros [= <-].
  - intros [= <-]. cbn [snd]. by apply wf_foldl_set_ones, wf_set.
Qed.

(** The tokenizer returns a dictionary: no key twice. *)
Lemma element_count_wf sum_form d :
  element_count_from_sum_formula sum_form = Ok d → Dict.wf d.
Proof.
  rewrite element_count_run. unfold tokenizer_run.
  destruct (for_each tokenizer_step _ _) as [[prev d']|] eqn:Hloop; [|done].
  apply (for_each_invariant (λ st, Dict.wf st.2)) in Hloop;
    [|apply step_wf|apply NoDup_nil_2].
  simpl in *. destruct (last _); simpl; [|done].
  intros [= <-]. destruct (Str.isalpha _); [by apply wf_set|done].
Qed.

(** ** Dictionaries built from a list of assignments *)

Lemma get_foldl_set_other {K V} `{EqDecision K} (d : pydict K V) l k :
  k ∉ l.*1 →
  Dict.get k (foldl (λ d kv, Dict.set kv.1 kv.2 d) d l) = Dict.get k d.
Proof.
  revert d. induction l as [|[k' v'] l IH]; intros d Hk; simpl; [done|].
  simpl in Hk. apply not_elem_of_cons in Hk as [Hne Hk].
  rewrite IH by done. rewrite get_set. by rewrite decide_False.
Qed.

(** The last assignment to a key is the one that stays. *)
Lemma get_of_pairs_last {K V} `{EqDecision K} (l1 l2 : list (K * V)) k v :
  k ∉ l2.*1 → Dict.get k (Dict.of_pairs (l1 ++ (k, v) :: l2)) = Some v.
Proof.
  intros Hk. unfold Dict.of_pairs. rewrite foldl_app. simpl.
  rewrite get_foldl_set_other by done. rewrite get_set. by rewrite decide_True.
Qed.

Lemma keys_foldl_set {K V} `{EqDecision K} (d : pydict K V) l k :
  k ∈ Dict.keys (foldl (λ d kv, Dict.set kv.1 kv.2 d) d l)
  ↔ k ∈ Dict.keys d ∨ k ∈ l.*1.
Proof.
  revert d. induction l as [|[k' v'] l IH]; intros d; simpl.
  - rewrite elem_of_nil. tauto.
  - rewrite IH, keys_set, elem_of_cons. simpl.
    case_decide; [|rewrite elem_of_app, list_elem_of_singleton];
      intuition congruence.
Qed.

Lemma keys_of_pairs {K V} `{EqDecision K} (l : list (K * V)) k :
  k ∈ Dict.keys (Dict.of_pairs l) ↔ k ∈ l.*1.
Proof.
  unfold Dict.of_pairs. rewrite keys_foldl_set. unfold Dict.keys. simpl.
  rewrite elem_of_nil. tauto.
Qed.

Lemma assignments_keys units : (Syntax.assignments units).*1 = units.*1.
Proof.
  unfold Syntax.assignments. rewrite <- list_fmap_compose.
  by apply list_fmap_ext.
Qed.

(** C9: in a well-formed formula the count of a symbol is the one of its
    last unit, whatever was assigned to the symbol before; so [H2OH] gives
    one [H], neither three nor an error. *)
Theorem last_occurrence_wins units1 sym c units2 :
  Forall (λ u, Syntax.is_symbol u.1 = true) (units1 ++ (sym, c) :: units2) →
  sym ∉ units2.*1 →
  (∃ d, element_count_from_sum_formula
          (Syntax.formula (units1 ++ (sym, c) :: units2)) = Ok d
        ∧ Dict.get sym d = Some (Syntax.count_value c))
  ∧ element_count_from_sum_formula "H2OH" = Ok [("H", 1%Z); ("O", 1%Z)].
Proof.
  intros Hunits Hlast. split; [|reflexivity].
  eexists. split.
  - apply element_count_of_formula; [by destruct units1|done].
  - unfold Syntax.assignments. rewrite fmap_app, fmap_cons. simpl.
    apply get_of_pairs_last.
    fold (Syntax.assignments units2). by rewrite assignments_keys.
Qed.

Lemma last_occurrence_wins_witness :
  Forall (λ u : string * option nat, Syntax.is_symbol u.1 = true)
         ([("H", Some 2); ("O", None)] ++ ("H", None) :: [])
  ∧ ("H" ∉ (([] : list (string * option nat)).*1))
  ∧ (∃ d, element_count_from_sum_formula "H2OH" = Ok d
         ∧ Dict.get "H" d = Some 1%Z).
Proof.
  assert (Forall (λ u : string * option nat, Syntax.is_symbol u.1 = true)
                 ([("H", Some 2); ("O", None)] ++ ("H", None) :: [])) as Hunits.
  { repeat constructor. }
  assert ("H" ∉ (([] : list (string * option nat)).*1)) as Hlast.
  { apply not_elem_of_nil. }
  split; [exact Hunits|]. split; [exact Hlast|].
  exact (proj1 (last_occurrence_wins [("H", Some 2); ("O", None)] "H" None []
                  Hunits Hlast)).
Defined.

(** ** The node pipeline *)

Lemma same_reordered :
  Dict.same [("C", 2%Z); ("H", 4%Z); ("O", 1%Z)]
            [("H", 4%Z); ("O", 1%Z); ("C", 2%Z)].
Proof. intros k. simpl. repeat case_decide; congruence. Qed.

(** C4: two formulas that the tokenizer reads as the same element-count
    mapping, in whatever order of the entries, give the same node mapping
    (or the same error); [C2H4O] and [H4OC2] are such a pair. *)
Theorem node_numbering_canonical element_symbols s1 s2 d1 d2 :
  element_count_from_sum_formula s1 = Ok d1 →
  element_count_from_sum_formula s2 = Ok d2 →
  Dict.same d1 d2 →
  (d ← element_count_from_sum_formula s1;
   graph_nodes_from_element_count element_symbols d)
  = (d ← element_count_from_sum_formula s2;
     graph_nodes_from_element_count element_symbols d)
  ∧ element_count_from_sum_formula "C2H4O"
    = Ok [("C", 2%Z); ("H", 4%Z); ("O", 1%Z)]
  ∧ element_count_from_sum_formula "H4OC2"
    = Ok [("H", 4%Z); ("O", 1%Z); ("C", 2%Z)]
  ∧ (d ← element_count_from_sum_formula "C2H4O";
     graph_nodes_from_element_count element_symbols d)
    = (d ← element_count_from_sum_formula "H4OC2";
       graph_nodes_from_element_count element_symbols d).
Proof.
  intros H1 H2 Hsame. split; [|split; [reflexivity|split; [reflexivity|]]].
  - rewrite H1, H2. simpl.
    apply graph_nodes_same; eauto using element_count_wf.
  - change (graph_nodes_from_element_count element_symbols
              [("C", 2%Z); ("H", 4%Z); ("O", 1%Z)]
            = graph_nodes_from_element_count element_symbols
                [("H", 4%Z); ("O", 1%Z); ("C", 2%Z)]).
    apply graph_nodes_same; [| |apply same_reordered].
    + by apply (element_count_wf "C2H4O").
    + by apply (element_count_wf "H4OC2").
Qed.

Lemma node_numbering_canonical_witness :
  element_count_from_sum_formula "OH2" = Ok [("O", 1%Z); ("H", 2%Z)]
  ∧ element_count_from_sum_formula "H2O" = Ok [("H", 2%Z); ("O", 1%Z)]
  ∧ Dict.same [("O", 1%Z); ("H", 2%Z)] [("H", 2%Z); ("O", 1%Z)]
  ∧ (d ← element_count_from_sum_formula "OH2";
     graph_nodes_from_element_count first_elements d)
    = (d ← element_count_from_sum_formula "H2O";
       graph_nodes_from_element_count first_elements d).
Proof.
  assert (Dict.same [("O", 1%Z); ("H", 2%Z)] [("H", 2%Z); ("O", 1%Z)]) as Hsame.
  { intros k. simpl. repeat case_decide; congruence. }
  split; [reflexivity|]. split; [reflexivity|]. split; [exact Hsame|].
  exact (proj1 (node_numbering_canonical first_elements "OH2" "H2O" _ _
                  eq_refl eq_refl Hsame)).
Defined.

Lemma formula_without_slash units :
  Forall (λ u, Syntax.is_symbol u.1 = true) units →
  Str.contains "/" (Syntax.formula units) = false.
Proof.
  induction 1 as [|[sym c] units Hsym _ IH]; [done|].
  cbn [Syntax.formula foldr]. fold (Syntax.formula units). cbn [fst snd].
  rewrite !contains_append, symbol_without_slash, IH by done.
  destruct c as [n|]; [|done]. simpl. by rewrite dec_without.
Qed.

Lemma element_count_not_KeyError sum_form :
  element_count_from_sum_formula sum_form ≠ Raise KeyError.
Proof.
  rewrite element_count_run.
  destruct (run_cases (tokens sum_form) (EmptyString, []))
    as [->|[->|[d ->]]]; done.
Qed.

(** C7: a symbol of the mapping that is not in the table makes
    [graph_nodes_from_element_count] raise [KeyError].  The tokenizer never
    raises that error; it reads a well-formed formula whether its symbols
    are in the table or not, and the unknown symbol stops the node pipeline
    in the labeler. *)
Theorem unknown_symbol_raises element_symbols units sym rest use_element_symbols :
  units ≠ [] → Forall (λ u, Syntax.is_symbol u.1 = true) units →
  sym ∈ units.*1 → atom_number_dict element_symbols !! sym = None →
  Syntax.section_end rest →
  (∀ d : pydict string Z,
     sym ∈ Dict.keys d →
     graph_nodes_from_element_count element_symbols d = Raise KeyError)
  ∧ (∀ sum_form, element_count_from_sum_formula sum_form ≠ Raise KeyError)
  ∧ (∃ d, element_count_from_sum_formula (Syntax.formula units) = Ok d
          ∧ sym ∈ Dict.keys d)
  ∧ tucan_string_to_graph_nodes element_symbols
      (Syntax.formula units +:+ rest) use_element_symbols
    = Raise KeyError.
Proof.
  intros Hne Hunits Hsym Hunknown Hrest.
  assert (∀ d : pydict string Z,
            sym ∈ Dict.keys d →
            graph_nodes_from_element_count element_symbols d = Raise KeyError)
    as Hlabeler.
  { intros d ([e v] & -> & Hin)%list_elem_of_fmap.
    apply graph_nodes_unknown, Exists_exists. by exists (e, v). }
  assert (sym ∈ Dict.keys (Dict.of_pairs (Syntax.assignments units))) as Hkey.
  { by rewrite keys_of_pairs, assignments_keys. }
  split; [exact Hlabeler|]. split; [apply element_count_not_KeyError|].
  split.
  - eexists. split; [by apply element_count_of_formula|done].
  - unfold tucan_string_to_graph_nodes.
    rewrite split_first_section by auto using formula_without_slash. simpl.
    rewrite element_count_of_formula by done. simpl.
    by rewrite Hlabeler.
Qed.

Lemma unknown_symbol_raises_witness :
  [("C", Some 2); ("Xe", None)] ≠ ([] : list (string * option nat))
  ∧ Forall (λ u : string * option nat, Syntax.is_symbol u.1 = true)
           [("C", Some 2); ("Xe", None)]
  ∧ "Xe" ∈ [("C", Some 2); ("Xe", None)].*1
  ∧ atom_number_dict first_elements !! "Xe" = None
  ∧ Syntax.section_end "/(1-2)"
  ∧ tucan_string_to_graph_nodes first_elements "C2Xe/(1-2)" true = Raise KeyError.
Proof.
  assert (Forall (λ u : string * option nat, Syntax.is_symbol u.1 = true)
                 [("C", Some 2); ("Xe", None)]) as Hunits.
  { repeat constructor. }
  assert ("Xe" ∈ [("C", Some 2); ("Xe", None)].*1) as Hsym.
  { right. left. }
  assert (Syntax.section_end "/(1-2)") as Hrest.
  { right. by exists "(1-2)". }
  split; [done|]. split; [exact Hunits|]. split; [exact Hsym|].
  split; [reflexivity|]. split; [exact Hrest|].
  apply (unknown_symbol_raises first_elements [("C", Some 2); ("Xe", None)]
           "Xe" "/(1-2)" true); [done|exact Hunits|exact Hsym|reflexivity|exact Hrest].
Defined.

(** ** Digit runs without a symbol before them *)

Lemma elem_of_tail {A} (x : A) l : x ∈ tail l → x ∈ l.
Proof. destruct l; simpl; [done|]. by right. Qed.

Lemma elem_of_removelast {A} (x : A) l :
  x ∈ l → last l ≠ Some x → x ∈ removelast l.
Proof.
  induction l as [|a l IH]; [done|]. destruct l as [|b l].
  - intros ->%list_elem_of_singleton. done.
  - intros [->|Hin]%elem_of_cons Hlast; [by left|].
    right. by apply IH.
Qed.

(** The text before a digit run at the start of the string is a token, and
    not the last one. *)
Lemma split_text_start t c rest :
  Str.any Char.is_digit t = false → Char.is_digit c = true →
  ∃ l, l ≠ [] ∧ Re.split_text (t +:+ String c rest) = t :: l.
Proof.
  intros Ht Hc. rewrite split_text_prefix by done. simpl. rewrite Hc. simpl.
  rewrite append_nil_r. eexists. split; [|done].
  pose proof (split_run_not_nil rest). by destruct (Re.split_run rest).
Qed.

(** The text between two digit runs is a token. *)
Lemma split_between pre c' t c rest :
  Char.is_digit c' = true → t ≠ EmptyString →
  Str.any Char.is_digit t = false → Char.is_digit c = true →
  t ∈ tail (Re.split_text (pre +:+ String c' (t +:+ String c rest)))
  ∧ t ∈ tail (Re.split_run (pre +:+ String c' (t +:+ String c rest))).
Proof.
  intros Hc' Hne Ht Hc.
  destruct (split_text_start t c rest Ht Hc) as (l & _ & Hsplit).
  assert (Re.split_run (t +:+ String c rest) = EmptyString :: t :: l) as Hrun.
  { rewrite split_run_end; [by rewrite Hsplit|].
    destruct t as [|x t]; [done|]. simpl in *.
    by apply orb_false_iff in Ht as [-> _]. }
  induction pre as [|x pre [IH1 IH2]]; simpl.
  - rewrite Hc', Hrun. simpl. split; [right|]; left.
  - destruct (Char.is_digit x); simpl.
    + rewrite tail_cons_head. split; [|done].
      apply elem_of_tail. by rewrite tail_cons_head.
    + rewrite tail_cons_head. split; [done|].
      apply elem_of_tail. by rewrite tail_cons_head.
Qed.

Lemma get_empty_foldl_ones (d : pydict string Z) l :
  Forall (λ m, m ≠ EmptyString) l → Dict.get EmptyString d = None →
  Dict.get EmptyString (foldl (λ d element, Dict.set element 1%Z d) d l) = None.
Proof.
  intros Hl. revert d. induction Hl as [|m l Hm _ IH]; intros d Hd; simpl; [done|].
  apply IH. rewrite get_set. by rewrite decide_False.
Qed.

Lemma Forall_removelast {A} (P : A → Prop) l : Forall P l → Forall P (removelast l).
Proof.
  induction 1 as [|x l Hx Hl IH]; [done|]. destruct l; [done|].
  by constructor.
Qed.

Lemma Forall_last_default {A} (P : A → Prop) l d :
  Forall P l → l ≠ [] → P (default d (last l)).
Proof.
  induction 1 as [|x l Hx Hl IH]; [done|]. intros _.
  destruct l as [|y l]; [done|]. by apply IH.
Qed.

(** After a token with a capital letter the pending element is not empty,
    and the empty key stays out of the dictionary. *)
Lemma step_matches_pending st tok st' :
  Re.findall_capital tok ≠ [] → Dict.get EmptyString st.2 = None →
  tokenizer_step st tok = Ok st' →
  st'.1 ≠ EmptyString ∧ Dict.get EmptyString st'.2 = None.
Proof.
  intros Hms Hd. rewrite (step_matches st tok _ eq_refl Hms). intros [= <-].
  pose proof (findall_not_empty tok) as Hall. simpl. split.
  - by apply (Forall_last_default (λ m, m ≠ EmptyString)).
  - by apply get_empty_foldl_ones; [apply Forall_removelast|].
Qed.

Lemma step_pending st tok st' :
  st.1 ≠ EmptyString ∧ Dict.get EmptyString st.2 = None →
  tokenizer_step st tok = Ok st' →
  st'.1 ≠ EmptyString ∧ Dict.get EmptyString st'.2 = None.
Proof.
  intros [Hprev Hd] Hstep.
  destruct (Re.findall_capital tok) as [|m ms] eqn:Hms.
  - destruct st as [prev d]. unfold tokenizer_step in Hstep. rewrite Hms in Hstep.
    destruct (Int.int tok) as [n|]; [|done]. simpl in *.
    injection Hstep as <-. simpl. split; [done|].
    rewrite get_set. by rewrite decide_False.
  - eapply step_matches_pending; [|done..]. by rewrite Hms.
Qed.

Lemma run_without_empty_key toks d :
  tokenizer_run toks (EmptyString, []) = Ok d →
  (∀ t ts, toks = t :: ts → Str.any Char.is_digit t = false) →
  Dict.get EmptyString d = None.
Proof.
  intros Hrun Hhead. unfold tokenizer_run in Hrun.
  destruct toks as [|t ts]; [done|]. specialize (Hhead t ts eq_refl).
  cbn [for_each] in Hrun.
  destruct (tokenizer_step (EmptyString, []) t) as [st1|] eqn:Hstep; [|done].
  assert (st1.1 ≠ EmptyString ∧ Dict.get EmptyString st1.2 = None) as Hst1.
  { apply (step_matches_pending (EmptyString, []) t st1); [|done|done].
    intros Hms.
    rewrite step_without_symbol in Hstep; [done| |done].
    clear -Hms. induction t as [|c r IH]; [done|]. simpl in *.
    destruct (Char.is_capital c); [done|]. auto. }
  cbn [mbind result_bind] in Hrun.
  destruct (for_each tokenizer_step st1 ts) as [[prev d']|] eqn:Hloop; [|done].
  apply (for_each_invariant
           (λ st, st.1 ≠ EmptyString ∧ Dict.get EmptyString st.2 = None))
    in Hloop; [|apply step_pending|done].
  destruct Hloop as [Hprev Hd']. simpl in *.
  destruct (last (t :: ts)); simpl in Hrun; [|done].
  injection Hrun as <-. destruct (Str.isalpha _); [|done].
  rewrite get_set. by rewrite decide_False.
Qed.

Lemma tokens_head sum_form t ts :
  tokens sum_form = t :: ts → Str.any Char.is_digit t = false.
Proof.
  unfold tokens, Re.split_digits.
  destruct (split_text_head sum_form) as (t0 & l & -> & Ht0).
  case_decide; [|by intros [= <- _]].
  destruct l as [|x l]; [done|]. by intros [= <- _].
Qed.

Lemma tokens_raise sum_form t :
  t ∈ tokens sum_form →
  Str.any Char.is_capital t = false → Str.any Char.is_digit t = false →
  element_count_from_sum_formula sum_form = Raise ValueError.
Proof.
  intros Hin Hcap Hdig. rewrite element_count_run.
  apply run_raise, (for_each_raise _ _ _ t); [apply step_cases|done|].
  intros st. by apply step_without_symbol.
Qed.

(** C8: a digit run with no element symbol before it, at the start of the
    formula or after another digit run, makes the tokenizer raise the error
    of [int]; and no mapping the tokenizer returns has the empty string for
    key. *)
Theorem digit_run_without_symbol pre t c rest :
  Str.any Char.is_digit t = false → Str.any Char.is_capital t = false →
  Char.is_digit c = true →
  pre = EmptyString
  ∨ (t ≠ EmptyString
     ∧ ∃ pre' c', pre = pre' +:+ String c' EmptyString
                  ∧ Char.is_digit c' = true) →
  element_count_from_sum_formula (pre +:+ t +:+ String c rest)
  = Raise ValueError
  ∧ ∀ sum_form d,
      element_count_from_sum_formula sum_form = Ok d →
      Dict.get EmptyString d = None.
Proof.
  intros Ht Hcap Hc Hpre. split.
  - apply (tokens_raise _ t); [|done..]. unfold tokens, Re.split_digits.
    destruct Hpre as [->|(Hne & pre' & c' & -> & Hc')].
    + simpl. destruct (split_text_start t c rest Ht Hc) as (l & Hl & ->).
      case_decide; [|by left].
      rewrite removelast_cons by done. by left.
    + rewrite append_assoc. simpl.
      destruct (split_between pre' c' t c rest Hc' Hne Ht Hc) as [Hin%elem_of_tail _].
      case_decide as Hlast; [|done].
      apply elem_of_removelast; [done|]. rewrite Hlast. congruence.
  - intros sum_form d. rewrite element_count_run. intros Hrun.
    apply (run_without_empty_key _ _ Hrun). apply tokens_head.
Qed.

Lemma digit_run_without_symbol_witness :
  Str.any Char.is_digit "" = false ∧ Str.any Char.is_capital "" = false
  ∧ Char.is_digit "2" = true
  ∧ element_count_from_sum_formula "2H" = Raise ValueError.
Proof.
  do 3 (split; [reflexivity|]).
  exact (proj1 (digit_run_without_symbol "" "" "2" "H" eq_refl eq_refl eq_refl
                  (or_introl eq_refl))).
Defined.

(** ** Ethylene oxide *)

Lemma expand_cons element_symbols k v l :
  expand element_symbols ((k, v) :: l)
  = replicate (Z.to_nat v)
              (default EmptyString (number_atom_dict element_symbols !! k))
      ++ expand element_symbols l.
Proof. reflexivity. Qed.

Lemma convert_loop_cons element_symbols acc (n : nat) e k l :
  atom_number_dict element_symbols !! e = Some k →
  for_each (λ graph_nodes_converted (nv : nat * string),
              n ← or_raise KeyError (atom_number_dict element_symbols !! nv.2);
              Ok (Dict.set nv.1 n graph_nodes_converted))
           acc ((n, e) :: l)
  = for_each (λ graph_nodes_converted (nv : nat * string),
                n ← or_raise KeyError (atom_number_dict element_symbols !! nv.2);
                Ok (Dict.set nv.1 n graph_nodes_converted))
             (Dict.set n k acc) l.
Proof. intros Hk. simpl. by rewrite Hk. Qed.

(** C2: with hydrogen, carbon and oxygen at the atomic numbers 1, 6 and 8 of
    the table, a TUCAN string whose sum formula is [C2H4O] has the element
    counts [{C: 2, H: 4, O: 1}] and the nodes [1..4] hydrogen, [5..6] carbon,
    [7] oxygen, as symbols or as atomic numbers. *)
Theorem ethylene_oxide_nodes element_symbols rest :
  atom_number_dict element_symbols !! "H" = Some 1 →
  atom_number_dict element_symbols !! "C" = Some 6 →
  atom_number_dict element_symbols !! "O" = Some 8 →
  Syntax.section_end rest →
  element_count_from_sum_formula "C2H4O"
  = Ok [("C", 2%Z); ("H", 4%Z); ("O", 1%Z)]
  ∧ tucan_string_to_graph_nodes element_symbols ("C2H4O" +:+ rest) true
    = Ok [(1, Symbol "H"); (2, Symbol "H"); (3, Symbol "H"); (4, Symbol "H");
          (5, Symbol "C"); (6, Symbol "C"); (7, Symbol "O")]
  ∧ tucan_string_to_graph_nodes element_symbols ("C2H4O" +:+ rest) false
    = Ok [(1, Number 1); (2, Number 1); (3, Number 1); (4, Number 1);
          (5, Number 6); (6, Number 6); (7, Number 8)].
Proof.
  intros HH HC HO Hrest. split; [reflexivity|].
  destruct (atom_number_number_atom _ _ _ HH) as [_ H1].
  destruct (atom_number_number_atom _ _ _ HC) as [_ H6].
  destruct (atom_number_number_atom _ _ _ HO) as [_ H8].
  assert (graph_nodes_from_element_count element_symbols
            [("C", 2%Z); ("H", 4%Z); ("O", 1%Z)]
          = Ok [(1, "H"); (2, "H"); (3, "H"); (4, "H");
                (5, "C"); (6, "C"); (7, "O")]) as Hnodes.
  { rewrite graph_nodes_known.
    - unfold by_atom_number. cbn [fmap list_fmap fst snd].
      rewrite HH, HC, HO. cbn [default from_option id].
      replace (sorted [(6, 2%Z); (1, 4%Z); (8, 1%Z)])
        with [(1, 4%Z); (6, 2%Z); (8, 1%Z)] by (by vm_compute).
      rewrite !expand_cons, H1, H6, H8. reflexivity.
    - by apply (element_count_wf "C2H4O").
    - repeat constructor; cbn [fst]; by eexists. }
  unfold tucan_string_to_graph_nodes.
  rewrite !split_first_section by done. cbn [or_raise mbind result_bind].
  change (element_count_from_sum_formula "C2H4O")
    with (Ok [("C", 2%Z); ("H", 4%Z); ("O", 1%Z)]).
  cbn [mbind result_bind]. rewrite Hnodes. cbn [mbind result_bind].
  split; [reflexivity|].
  unfold convert_graph_nodes_element_to_atomic_number, Dict.items.
  rewrite !(convert_loop_cons _ _ _ "H" 1) by done.
  rewrite !(convert_loop_cons _ _ _ "C" 6) by done.
  rewrite !(convert_loop_cons _ _ _ "O" 8) by done.
  reflexivity.
Qed.

Lemma ethylene_oxide_nodes_witness :
  atom_number_dict first_elements !! "H" = Some 1
  ∧ atom_number_dict first_elements !! "C" = Some 6
  ∧ atom_number_dict first_elements !! "O" = Some 8
  ∧ Syntax.section_end "/(1-5)(2-5)(3-6)(4-6)(5-6)(6-7)"
  ∧ tucan_string_to_graph_nodes first_elements
      "C2H4O/(1-5)(2-5)(3-6)(4-6)(5-6)(6-7)" true
    = Ok [(1, Symbol "H"); (2, Symbol "H"); (3, Symbol "H"); (4, Symbol "H");
          (5, Symbol "C"); (6, Symbol "C"); (7, Symbol "O")].
Proof.
  assert (Syntax.section_end "/(1-5)(2-5)(3-6)(4-6)(5-6)(6-7)") as Hrest.
  { right. by eexists. }
  do 3 (split; [reflexivity|]). split; [exact Hrest|].
  exact (proj1 (proj2 (ethylene_oxide_nodes first_elements
                         "/(1-5)(2-5)(3-6)(4-6)(5-6)(6-7)"
                         eq_refl eq_refl eq_refl Hrest))).
Defined.

(** * Further properties *)

(** ** The lookup tables, entry by entry *)

Lemma last_occurrence {A} `{EqDecision A} (x : A) l :
  x ∈ l → ∃ i, l !! i = Some x ∧ x ∉ drop (S i) l.
Proof.
  induction l as [|y l IH]; [by intros ?%elem_of_nil|]. intros Hin.
  destruct (decide (x ∈ l)) as [Hl|Hl].
  - destruct (IH Hl) as (i & ? & ?). by exists (S i).
  - apply elem_of_cons in Hin as [->|]; [|done]. by exists 0.
Qed.

Section table_entries.
Variable element_symbols : list string.

Lemma lookup_tables_entries (l : list string) j (a : gmap string nat) (n : gmap nat string) :
  ∀ e k,
    ((foldl (λ tables ie,
               (<[ie.2 := ie.1 + 1]> tables.1, <[ie.1 + 1 := ie.2]> tables.2))
            (a, n) (zip (seq j (length l)) l)).1 !! e = Some k
     ↔ (j < k ∧ l !! (k - j - 1) = Some e ∧ e ∉ drop (k - j) l)
       ∨ (a !! e = Some k ∧ e ∉ l))
    ∧ ((foldl (λ tables ie,
                 (<[ie.2 := ie.1 + 1]> tables.1, <[ie.1 + 1 := ie.2]> tables.2))
              (a, n) (zip (seq j (length l)) l)).2 !! k = Some e
       ↔ (j < k ∧ l !! (k - j - 1) = Some e)
         ∨ (n !! k = Some e ∧ ¬ (j < k ≤ j + length l))).
Proof.
  revert j a n. induction l as [|x l IH]; intros j a n e k.
  - simpl. rewrite elem_of_nil. split.
    + split; [intros ?; right; split; [done|by intros []]
             |by intros [(_ & ? & _)|[? _]]].
    + split; [intros ?; right; split; [done|lia]|by intros [[_ ?]|[? _]]].
  - cbn [length seq zip zip_with foldl fst snd].
    destruct (IH (S j) (<[x:=j + 1]> a) (<[j + 1:=x]> n) e k) as [IHa IHn].
    rewrite IHa, IHn. clear IHa IHn IH. split.
    + rewrite not_elem_of_cons. split.
      * intros [(Hk & Hl & Hdrop)|[Ha Hl]].
        -- left. split; [lia|].
           replace (k - j - 1) with (S (k - S j - 1)) by lia.
           replace (k - j) with (S (k - S j)) by lia. done.
        -- destruct (decide (e = x)) as [->|Hne].
           ++ rewrite lookup_insert_eq in Ha. injection Ha as <-. left.
              split; [lia|]. replace (j + 1 - j - 1) with 0 by lia.
              replace (j + 1 - j) with 1 by lia. done.
           ++ rewrite lookup_insert_ne in Ha by done. by right.
      * intros [(Hk & Hl & Hdrop)|[Ha [Hne Hl]]].
        -- destruct (decide (k = j + 1)) as [->|Hk'].
           ++ replace (j + 1 - j - 1) with 0 in Hl by lia.
              replace (j + 1 - j) with 1 in Hdrop by lia. simpl in *.
              injection Hl as ->. right. by rewrite lookup_insert_eq.
           ++ left. split; [lia|].
              replace (k - j - 1) with (S (k - S j - 1)) in Hl by lia.
              replace (k - j) with (S (k - S j)) in Hdrop by lia. done.
        -- right. by rewrite lookup_insert_ne.
    + split.
      * intros [[Hk Hl]|[Hn Hrange]].
        -- left. split; [lia|].
           by replace (k - j - 1) with (S (k - S j - 1)) by lia.
        -- destruct (decide (k = j + 1)) as [->|Hk'].
           ++ rewrite lookup_insert_eq in Hn. injection Hn as <-. left.
              split; [lia|]. by replace (j + 1 - j - 1) with 0 by lia.
           ++ rewrite lookup_insert_ne in Hn by done. right. split; [done|].
              simpl. lia.
      * intros [[Hk Hl]|[Hn Hrange]].
        -- destruct (decide (k = j + 1)) as [->|Hk'].
           ++ replace (j + 1 - j - 1) with 0 in Hl by lia. simpl in Hl.
              injection Hl as ->. right. rewrite lookup_insert_eq.
              split; [done|lia].
           ++ left. split; [lia|].
              by replace (k - j - 1) with (S (k - S j - 1)) in Hl by lia.
        -- right. simpl in Hrange. rewrite lookup_insert_ne by lia.
           split; [done|lia].
Qed.

Lemma number_atom_dict_entries k e :
  number_atom_dict element_symbols !! k = Some e
  ↔ 1 ≤ k ∧ element_symbols !! (k - 1) = Some e.
Proof.
  unfold number_atom_dict, lookup_tables, enumerate.
  destruct (lookup_tables_entries element_symbols 0 ∅ ∅ e k) as [_ ->].
  rewrite lookup_empty, Nat.sub_0_r. split.
  - intros [[??]|[? _]]; [split; [lia|done]|done].
  - intros [??]. left. split; [lia|done].
Qed.

Lemma atom_number_dict_entries e k :
  atom_number_dict element_symbols !! e = Some k
  ↔ 1 ≤ k ∧ element_symbols !! (k - 1) = Some e ∧ e ∉ drop k element_symbols.
Proof.
  unfold atom_number_dict, lookup_tables, enumerate.
  destruct (lookup_tables_entries element_symbols 0 ∅ ∅ e k) as [-> _].
  rewrite lookup_empty, !Nat.sub_0_r. split.
  - intros [(? & ? & ?)|[? _]]; [|done]. split; [lia|done].
  - intros (? & ? & ?). left. split; [lia|done].
Qed.

(** X1: [number_atom_dict] is the list of symbols read with indices from
    one: the entry of [k] is the symbol at position [k - 1], and there is no
    entry for [0] or beyond the end of the list. *)
Theorem number_atom_dict_lookup k e :
  (number_atom_dict element_symbols !! k = Some e
   ↔ 1 ≤ k ∧ element_symbols !! (k - 1) = Some e)
  ∧ (is_Some (number_atom_dict element_symbols !! k)
     ↔ 1 ≤ k ≤ length element_symbols).
Proof.
  split; [apply number_atom_dict_entries|]. split.
  - intros [e' [? Hk%lookup_lt_Some]%number_atom_dict_entries]. lia.
  - intros [??].
    destruct (lookup_lt_is_Some_2 element_symbols (k - 1)) as [e' He']; [lia|].
    exists e'. by apply number_atom_dict_entries.
Qed.

(** X2: [atom_number_dict] gives a symbol the number of its last position
    in the list, counted from one: an entry that occurs again later in the
    list is overwritten.  A string is a key exactly when it is in the
    list. *)
Theorem atom_number_dict_lookup e k :
  (atom_number_dict element_symbols !! e = Some k
   ↔ 1 ≤ k ∧ element_symbols !! (k - 1) = Some e
     ∧ e ∉ drop k element_symbols)
  ∧ (is_Some (atom_number_dict element_symbols !! e) ↔ e ∈ element_symbols).
Proof.
  split; [apply atom_number_dict_entries|]. split.
  - intros [k' (_ & Hin & _)%atom_number_dict_entries].
    by eapply list_elem_of_lookup_2.
  - intros (i & Hi & Hdrop)%last_occurrence. exists (S i).
    apply atom_number_dict_entries. split; [lia|].
    by rewrite Nat.sub_1_r.
Qed.

(** X3: in a table without a repeated symbol the two dictionaries are
    inverse to each other: the symbol at position [i] has the number
    [i + 1], that number leads back to the symbol, and no other number
    does. *)
Theorem lookup_tables_round_trip i e :
  NoDup element_symbols → element_symbols !! i = Some e →
  atom_number_dict element_symbols !! e = Some (i + 1)
  ∧ number_atom_dict element_symbols !! (i + 1) = Some e
  ∧ ∀ k, number_atom_dict element_symbols !! k = Some e → k = i + 1.
Proof.
  intros Hnd Hi. split; [|split].
  - apply atom_number_dict_entries. rewrite Nat.add_sub. split; [lia|].
    split; [done|]. intros (j & Hj)%list_elem_of_lookup.
    rewrite lookup_drop in Hj.
    pose proof (NoDup_lookup _ _ _ _ Hnd Hi Hj). lia.
  - apply number_atom_dict_entries. rewrite Nat.add_sub. split; [lia|done].
  - intros k [Hk Hl]%number_atom_dict_entries.
    pose proof (NoDup_lookup _ _ _ _ Hnd Hi Hl). lia.
Qed.
End table_entries.

Lemma lookup_tables_round_trip_witness :
  NoDup first_elements ∧ first_elements !! 5 = Some "C"
  ∧ atom_number_dict first_elements !! "C" = Some 6
  ∧ number_atom_dict first_elements !! 6 = Some "C".
Proof.
  assert (NoDup first_elements) as Hnd.
  { apply (bool_decide_unpack _). vm_compute. exact I. }
  split; [exact Hnd|]. split; [reflexivity|].
  destruct (lookup_tables_round_trip first_elements 5 "C" Hnd eq_refl)
    as (Ha & Hn & _).
  split; [exact Ha|exact Hn].
Defined.

(** ** From symbols to atomic numbers *)

Section conversion_facts.
Variable element_symbols : list string.
Abbreviation atom_of := (atom_number_dict element_symbols).
Abbreviation number_of := (number_atom_dict element_symbols).

Lemma convert_loop (acc : pydict nat nat) (g : pydict nat string) :
  NoDup (Dict.keys acc ++ Dict.keys g) →
  Forall (λ nv : nat * string, is_Some (atom_of !! nv.2)) g →
  for_each (λ graph_nodes_converted (nv : nat * string),
              n ← or_raise KeyError (atom_of !! nv.2);
              Ok (Dict.set nv.1 n graph_nodes_converted))
           acc g
  = Ok (acc ++ ((λ nv, (nv.1, default 0 (atom_of !! nv.2))) <$> g)).
Proof.
  intros Hnd Hg. revert acc Hnd.
  induction Hg as [|[i e] g [k Hk] _ IH]; intros acc Hnd.
  - simpl. by rewrite app_nil_r.
  - simpl in Hk. rewrite (convert_loop_cons _ _ _ _ k) by done.
    assert (i ∉ Dict.keys acc) as Hfresh.
    { apply NoDup_app in Hnd as (_ & Hdisj & _).
      intros Hin. apply (Hdisj i Hin). by left. }
    rewrite set_fresh by done. rewrite IH.
    + rewrite <- app_assoc. simpl. by rewrite Hk.
    + unfold Dict.keys in *. rewrite fmap_app. simpl in *.
      by rewrite <- app_assoc.
Qed.

Lemma keys_converted (g : pydict nat string) :
  Dict.keys ((λ nv, (nv.1, default 0 (atom_of !! nv.2))) <$> g) = Dict.keys g.
Proof.
  unfold Dict.keys. rewrite <- list_fmap_compose. by apply list_fmap_ext.
Qed.

Lemma convert_known (g : pydict nat string) :
  Dict.wf g → Forall (λ nv : nat * string, is_Some (atom_of !! nv.2)) g →
  convert_graph_nodes_element_to_atomic_number element_symbols g
  = Ok ((λ nv, (nv.1, default 0 (atom_of !! nv.2))) <$> g).
Proof.
  intros Hwf Hg. unfold convert_graph_nodes_element_to_atomic_number, Dict.items.
  by rewrite convert_loop.
Qed.

Lemma convert_unknown (g : pydict nat string) :
  Exists (λ nv : nat * string, atom_of !! nv.2 = None) g →
  convert_graph_nodes_element_to_atomic_number element_symbols g = Raise KeyError.
Proof.
  intros (nv & Hin & Hnv)%Exists_exists.
  unfold convert_graph_nodes_element_to_atomic_number, Dict.items.
  apply (for_each_raise _ _ _ nv); [|done|].
  - intros acc [i e]. simpl. destruct (atom_of !! e); simpl; eauto.
  - intros acc. by rewrite Hnv.
Qed.

(** X4: the conversion keeps the node ids and their order and puts the
    atomic number in the place of every symbol; one symbol that is not in
    the table makes it raise [KeyError], whatever the other nodes are. *)
Theorem convert_graph_nodes (g : pydict nat string) :
  Dict.wf g →
  (Forall (λ nv : nat * string, is_Some (atom_of !! nv.2)) g →
   ∃ converted,
     convert_graph_nodes_element_to_atomic_number element_symbols g = Ok converted
     ∧ Dict.keys converted = Dict.keys g
     ∧ ∀ i e, Dict.get i g = Some e → Dict.get i converted = atom_of !! e)
  ∧ (Exists (λ nv : nat * string, atom_of !! nv.2 = None) g →
     convert_graph_nodes_element_to_atomic_number element_symbols g
     = Raise KeyError).
Proof.
  intros Hwf. split; [|apply convert_unknown].
  intros Hg. eexists. split; [by apply convert_known|]. split.
  - apply keys_converted.
  - intros i e Hie. apply get_Some in Hie; [|done].
    rewrite Forall_forall in Hg. destruct (Hg _ Hie) as [k Hk]. simpl in Hk.
    rewrite Hk. apply get_Some.
    + unfold Dict.wf. by rewrite keys_converted.
    + apply list_elem_of_fmap. exists (i, e). simpl. by rewrite Hk.
Qed.
End conversion_facts.

Lemma convert_graph_nodes_witness :
  Dict.wf [(1, "H"); (2, "O")]
  ∧ Forall (λ nv : nat * string,
              is_Some (atom_number_dict first_elements !! nv.2))
           [(1, "H"); (2, "O")]
  ∧ ∃ converted,
      convert_graph_nodes_element_to_atomic_number first_elements
        [(1, "H"); (2, "O")] = Ok converted
      ∧ Dict.keys converted = [1; 2].
Proof.
  assert (Dict.wf [(1, "H"); (2, "O")]) as Hwf.
  { unfold Dict.wf. apply (bool_decide_unpack _). vm_compute. exact I. }
  assert (Forall (λ nv : nat * string,
                    is_Some (atom_number_dict first_elements !! nv.2))
                 [(1, "H"); (2, "O")]) as Hknown.
  { repeat constructor; by eexists. }
  split; [exact Hwf|]. split; [exact Hknown|].
  destruct (proj1 (convert_graph_nodes first_elements _ Hwf) Hknown)
    as (converted & Hc & Hkeys & _).
  exists converted. split; [exact Hc|exact Hkeys].
Defined.

(** ** The entries the tokenizer returns *)

Lemma for_each_invariant_elem {A S} (P : S → Prop) (body : S → A → result S) l s s' :
  (∀ s x s', x ∈ l → P s → body s x = Ok s' → P s') →
  P s → for_each body s l = Ok s' → P s'.
Proof.
  revert s. induction l as [|x l IH]; intros s Hbody Hs; simpl.
  - by intros [= <-].
  - destruct (body s x) as [s1|e] eqn:Hx; simpl; [|done].
    apply IH.
    + intros ?????. eapply Hbody; [by right|done..].
    + eapply Hbody; [by left|done..].
Qed.

(** Every piece of the split is free of digits or a run of digits. *)
Lemma split_pieces s :
  (∃ t ts, Re.split_text s = t :: ts ∧ Str.any Char.is_digit t = false
           ∧ Forall (λ t, Str.any Char.is_digit t = false
                          ∨ (Str.all Char.is_digit t = true ∧ t ≠ EmptyString)) ts)
  ∧ (∃ t ts, Re.split_run s = t :: ts ∧ Str.all Char.is_digit t = true
             ∧ Forall (λ t, Str.any Char.is_digit t = false
                            ∨ (Str.all Char.is_digit t = true ∧ t ≠ EmptyString)) ts).
Proof.
  induction s as [|c r [(t1 & ts1 & H1 & Ht1 & Hts1) (t2 & ts2 & H2 & Ht2 & Hts2)]];
    simpl.
  - split; eexists _, _; (split; [done|]); split; try done.
    repeat constructor.
  - rewrite H1, H2. destruct (Char.is_digit c) eqn:Hc; simpl.
    + split; eexists _, _; (split; [done|]); split; try done.
      * constructor; [|done]. right. simpl. by rewrite Hc, Ht2.
      * simpl. by rewrite Hc, Ht2.
    + split; eexists _, _; (split; [done|]); split; try done.
      * simpl. by rewrite Hc, Ht1.
      * constructor; [|done]. left. simpl. by rewrite Hc, Ht1.
Qed.

Lemma Forall_tokens (P : string → Prop) sum_form :
  Forall P (Re.split_text sum_form) → Forall P (tokens sum_form).
Proof.
  intros Hall. unfold tokens, Re.split_digits.
  case_decide; [by apply Forall_removelast|done].
Qed.

Lemma tokens_pieces sum_form :
  Forall (λ t, Str.any Char.is_digit t = false
               ∨ (Str.all Char.is_digit t = true ∧ t ≠ EmptyString))
         (tokens sum_form).
Proof.
  apply Forall_tokens.
  destruct (split_pieces sum_form) as [(t & ts & -> & Ht & Hts) _].
  constructor; [by left|done].
Qed.

Lemma any_take_non_capital p r :
  Str.any p r = false → Str.any p (Str.take_non_capital r) = false.
Proof.
  induction r as [|c r IH]; simpl; [done|].
  intros [Hc Hr]%orb_false_iff. destruct (Char.is_capital c); [done|].
  simpl. by rewrite Hc, IH.
Qed.

Lemma take_non_capital_without_capital r :
  Str.any Char.is_capital (Str.take_non_capital r) = false.
Proof.
  induction r as [|c r IH]; simpl; [done|].
  destruct (Char.is_capital c) eqn:Hc; [done|]. simpl. by rewrite Hc, IH.
Qed.

Lemma findall_matches s :
  Str.any Char.is_digit s = false →
  Forall (λ m, is_match m = true) (Re.findall_capital s).
Proof.
  induction s as [|c r IH]; simpl; [done|].
  intros [Hc Hr]%orb_false_iff. destruct (Char.is_capital c) eqn:Hcap; [|auto].
  constructor; [|auto]. simpl.
  by rewrite Hcap, take_non_capital_without_capital, any_take_non_capital.
Qed.

Lemma run_without_capital t :
  Str.all Char.is_digit t = true → Str.any Char.is_capital t = false.
Proof.
  induction t as [|c r IH]; simpl; [done|].
  intros [Hc Hr]%andb_true_iff. by rewrite (digit_not_capital c), IH.
Qed.

Lemma digit_value_nonneg c : Char.is_digit c = true → (0 ≤ Char.digit_value c)%Z.
Proof. char_cases c. Qed.

Lemma value_nonneg acc t :
  Str.all Char.is_digit t = true → (0 ≤ acc)%Z → (0 ≤ Int.value acc t)%Z.
Proof.
  revert acc. induction t as [|c r IH]; intros acc; simpl; [done|].
  intros [Hc Hr]%andb_true_iff Hacc. apply IH; [done|].
  pose proof (digit_value_nonneg c Hc). lia.
Qed.

Lemma Forall_set {K V} `{EqDecision K} (P : K * V → Prop) k v (d : pydict K V) :
  P (k, v) → Forall P d → Forall P (Dict.set k v d).
Proof.
  intros Hkv. induction 1 as [|[k' v'] d Hx Hd IH]; simpl.
  - by constructor.
  - case_decide; subst; constructor; auto.
Qed.

Lemma Forall_foldl_ones (P : string * Z → Prop) (d : pydict string Z) l :
  Forall (λ m, P (m, 1%Z)) l → Forall P d →
  Forall P (foldl (λ d element, Dict.set element 1%Z d) d l).
Proof.
  intros Hl. revert d. induction Hl as [|m l Hm _ IH]; intros d Hd; simpl; [done|].
  by apply IH, Forall_set.
Qed.

(** A step on a token that is free of digits or a run of digits keeps the
    pending element and the keys in the shape of a match, and the counts
    from below zero. *)
Lemma step_entries st tok st' :
  Str.any Char.is_digit tok = false
  ∨ (Str.all Char.is_digit tok = true ∧ tok ≠ EmptyString) →
  (is_match st.1 = true ∨ Re.findall_capital tok ≠ []) →
  Forall (λ kv, is_match kv.1 = true ∧ (0 ≤ kv.2)%Z) st.2 →
  tokenizer_step st tok = Ok st' →
  is_match st'.1 = true
  ∧ Forall (λ kv, is_match kv.1 = true ∧ (0 ≤ kv.2)%Z) st'.2.
Proof.
  intros Htok Hprev Hd Hstep.
  destruct (Re.findall_capital tok) as [|m ms] eqn:Hms.
  - destruct Hprev as [Hprev|]; [|done].
    destruct Htok as [Hfree|[Hrun Hne]].
    { rewrite step_without_symbol in Hstep; [done| |done].
      clear -Hms. induction tok as [|c r IH]; [done|]. simpl in *.
      destruct (Char.is_capital c); [done|]. auto. }
    destruct st as [prev d]. unfold tokenizer_step in Hstep.
    rewrite Hms in Hstep. unfold Int.int in Hstep.
    rewrite parse_run in Hstep by done. simpl in *. injection Hstep as <-.
    simpl. split; [done|].
    assert (0 ≤ Int.value 0 tok)%Z by by apply value_nonneg.
    by apply Forall_set.
  - assert (Str.any Char.is_digit tok = false) as Hfree.
    { destruct Htok as [|[Hrun _]]; [done|].
      apply run_without_capital, findall_without_capital in Hrun. congruence. }
    pose proof (findall_matches tok Hfree) as Hall. rewrite Hms in Hall.
    remember (m :: ms) as l eqn:Hl.
    assert (l ≠ []) as Hne by by subst.
    rewrite (step_matches st tok l) in Hstep by done.
    injection Hstep as <-. cbn [fst snd]. split.
    + by apply (Forall_last_default (λ m, is_match m = true)).
    + apply Forall_foldl_ones; [|done].
      eapply Forall_impl; [by apply Forall_removelast|]. by intros.
Qed.

Lemma element_count_entries sum_form d :
  element_count_from_sum_formula sum_form = Ok d →
  Forall (λ kv, is_match kv.1 = true ∧ (0 ≤ kv.2)%Z) d.
Proof.
  rewrite element_count_run. intros Hrun.
  pose proof (tokens_pieces sum_form) as Hpieces.
  pose proof (tokens_head sum_form) as Hhead.
  unfold tokenizer_run in Hrun.
  destruct (tokens sum_form) as [|t ts]; [done|].
  specialize (Hhead t ts eq_refl). cbn [for_each] in Hrun.
  destruct (tokenizer_step (EmptyString, []) t) as [st1|] eqn:Hstep; [|done].
  assert (Re.findall_capital t ≠ []) as Hms.
  { intros Hms. rewrite step_without_symbol in Hstep; [done| |done].
    clear -Hms. induction t as [|c r IH]; [done|]. simpl in *.
    destruct (Char.is_capital c); [done|]. auto. }
  apply step_entries in Hstep; [|by left|by right|done].
  cbn [mbind result_bind] in Hrun.
  destruct (for_each tokenizer_step st1 ts) as [[prev d']|] eqn:Hloop; [|done].
  apply (for_each_invariant_elem
           (λ st, is_match st.1 = true
                  ∧ Forall (λ kv, is_match kv.1 = true ∧ (0 ≤ kv.2)%Z) st.2))
    in Hloop; [| |done].
  - destruct Hloop as [Hprev Hd']. simpl in *.
    destruct (last (t :: ts)); simpl in Hrun; [|done].
    injection Hrun as <-. destruct (Str.isalpha _); [|done].
    by apply Forall_set.
  - intros st x st' Hx [Hst1 Hst2] Hbody.
    apply (step_entries st x); [|by left|done..].
    apply Forall_cons in Hpieces as [_ Hpieces].
    rewrite Forall_forall in Hpieces. by apply Hpieces.
Qed.

(** X5: whatever the sum formula, a mapping the tokenizer returns is a
    dictionary whose keys are a capital letter followed by characters that
    are neither capital letters nor digits, and whose counts are not
    negative. *)
Theorem element_count_keys_and_counts sum_form d :
  element_count_from_sum_formula sum_form = Ok d →
  Dict.wf d
  ∧ Forall (λ kv, is_match kv.1 = true ∧ (0 ≤ kv.2)%Z) d.
Proof.
  intros Hd. split; [by eapply element_count_wf|by eapply element_count_entries].
Qed.

Lemma element_count_keys_and_counts_witness :
  element_count_from_sum_formula "ClBr2H0" = Ok [("Cl", 1%Z); ("Br", 2%Z); ("H", 0%Z)]
  ∧ Dict.wf [("Cl", 1%Z); ("Br", 2%Z); ("H", 0%Z)]
  ∧ Forall (λ kv : string * Z, is_match kv.1 = true ∧ (0 ≤ kv.2)%Z)
           [("Cl", 1%Z); ("Br", 2%Z); ("H", 0%Z)].
Proof.
  split; [reflexivity|].
  exact (element_count_keys_and_counts "ClBr2H0" _ eq_refl).
Defined.

Lemma split_text_singleton_empty s :
  Re.split_text s = [EmptyString] → s = EmptyString.
Proof.
  destruct s as [|c r]; [done|]. simpl.
  destruct (Char.is_digit c).
  - pose proof (split_run_not_nil r). by destruct (Re.split_run r).
  - pose proof (split_text_not_nil r). by destruct (Re.split_text r).
Qed.

Lemma tokens_not_nil sum_form : sum_form ≠ EmptyString → tokens sum_form ≠ [].
Proof.
  intros Hne. unfold tokens, Re.split_digits.
  pose proof (split_text_not_nil sum_form) as Hnil.
  pose proof (split_text_singleton_empty sum_form) as Hsingle.
  destruct (Re.split_text sum_form) as [|t [|t' ts]]; [done| |].
  - case_decide as Hlast; [|done]. injection Hlast as ->. by destruct Hne; auto.
  - by case_decide.
Qed.

(** X6: the tokenizer raises [IndexError] for the empty sum formula and for
    no other; every other failure is the [ValueError] of [int]. *)
Theorem element_count_errors sum_form :
  (element_count_from_sum_formula sum_form = Raise IndexError
   ↔ sum_form = EmptyString)
  ∧ (∀ e, element_count_from_sum_formula sum_form = Raise e →
          sum_form ≠ EmptyString → e = ValueError).
Proof.
  assert (sum_form ≠ EmptyString →
          element_count_from_sum_formula sum_form ≠ Raise IndexError) as Hne.
  { intros Hs%tokens_not_nil. rewrite element_count_run. unfold tokenizer_run.
    destruct (for_each_cases tokenizer_step ValueError (tokens sum_form)
                (EmptyString, []) step_cases) as [->|[[prev d] ->]]; [done|].
    simpl. destruct (tokens sum_form) as [|t ts] using rev_ind; [done|].
    by rewrite last_snoc. }
  split.
  - split; [|by intros ->].
    intros Hraise. destruct (decide (sum_form = EmptyString)); [done|].
    by destruct Hne.
  - intros e He Hs. specialize (Hne Hs). rewrite element_count_run in *.
    destruct (run_cases (tokens sum_form) (EmptyString, []))
      as [H|[H|[d H]]]; congruence.
Qed.

Lemma element_count_errors_witness :
  element_count_from_sum_formula "2H" = Raise ValueError
  ∧ "2H" ≠ EmptyString ∧ ValueError = ValueError.
Proof.
  assert ("2H" ≠ EmptyString) as Hne by done.
  split; [reflexivity|]. split; [exact Hne|].
  exact (proj2 (element_count_errors "2H") ValueError eq_refl Hne).
Defined.

(** ** Nodes of every element *)

Lemma length_filter_replicate {A} `{EqDecision A} (x e : A) n :
  length (filter (λ y, y = e) (replicate n x)) = if decide (x = e) then n else 0.
Proof.
  induction n as [|n IH]; simpl; [by case_decide|].
  rewrite filter_cons. destruct (decide (x = e)); simpl; by rewrite IH.
Qed.

Lemma length_filter_numbered (l : list string) e :
  length (filter (λ nv : nat * string, nv.2 = e) (numbered l))
  = length (filter (λ x, x = e) l).
Proof.
  unfold numbered. generalize 1.
  induction l as [|x l IH]; intros j; simpl; [done|].
  rewrite !filter_cons. simpl. destruct (decide (x = e)); simpl; by rewrite IH.
Qed.

Lemma sum_selected_key (d : pydict string Z) e :
  Dict.wf d →
  sum_list_with (λ kv, if decide (kv.1 = e) then Z.to_nat kv.2 else 0) d
  = Z.to_nat (default 0%Z (Dict.get e d)).
Proof.
  unfold Dict.wf, Dict.keys.
  induction d as [|[e' v] d IH]; simpl; [done|].
  intros [Hnotin Hnd]%NoDup_cons. rewrite IH by done.
  destruct (decide (e' = e)) as [->|Hne].
  - rewrite decide_True by done.
    apply (get_None e d) in Hnotin. rewrite Hnotin. simpl. lia.
  - rewrite decide_False by done. done.
Qed.

Section element_nodes.
Variable element_symbols : list string.
Abbreviation atom'' := (atom_number_dict element_symbols).
Abbreviation number'' := (number_atom_dict element_symbols).

Lemma length_filter_expand (l : list (nat * Z)) e :
  length (filter (λ x, x = e) (expand element_symbols l))
  = sum_list_with
      (λ kv, if decide (default EmptyString (number'' !! kv.1) = e)
             then Z.to_nat kv.2 else 0) l.
Proof.
  induction l as [|[k v] l IH]; [done|].
  rewrite expand_cons, filter_app, length_app, length_filter_replicate, IH.
  done.
Qed.

Lemma sum_by_atom_number (d : pydict string Z) e :
  Forall (λ kv, is_Some (atom'' !! kv.1)) d →
  sum_list_with
    (λ kv, if decide (default EmptyString (number'' !! kv.1) = e)
           then Z.to_nat kv.2 else 0)
    (by_atom_number element_symbols d)
  = sum_list_with (λ kv, if decide (kv.1 = e) then Z.to_nat kv.2 else 0) d.
Proof.
  induction 1 as [|[e' v] d [k Hk] _ IH]; [done|]. simpl in *.
  rewrite IH, Hk. simpl.
  destruct (atom_number_number_atom _ _ _ Hk) as [_ ->]. done.
Qed.

Lemma graph_nodes_ok_known (d : pydict string Z) g :
  graph_nodes_from_element_count element_symbols d = Ok g →
  Forall (λ kv, is_Some (atom'' !! kv.1)) d.
Proof.
  intros Hg.
  destruct (decide (Forall (λ kv, is_Some (atom'' !! kv.1)) d)) as [|Hd]; [done|].
  rewrite graph_nodes_unknown in Hg; [done|].
  apply not_Forall_Exists in Hd; [|apply _].
  eapply Exists_impl; [exact Hd|]. intros [e v]. simpl.
  destruct (atom'' !! e); [|done]. intros []. by eexists.
Qed.

(** X7: every element of the mapping gets exactly as many nodes as its
    count says (none for a count of zero or below), and an element that is
    not a key gets none. *)
Theorem nodes_per_element (d : pydict string Z) e :
  Dict.wf d → Forall (λ kv, is_Some (atom'' !! kv.1)) d →
  ∃ graph_nodes,
    graph_nodes_from_element_count element_symbols d = Ok graph_nodes
    ∧ length (filter (λ nv, nv.2 = e) graph_nodes)
      = Z.to_nat (default 0%Z (Dict.get e d)).
Proof.
  intros Hwf Hd. eexists. split; [by apply graph_nodes_known|].
  rewrite length_filter_numbered.
  rewrite length_filter_expand, sorted_Permutation, sum_by_atom_number by done.
  by apply sum_selected_key.
Qed.

Lemma length_graph_nodes (d : pydict string Z) g :
  Dict.wf d → Forall (λ kv, (0 ≤ kv.2)%Z) d →
  graph_nodes_from_element_count element_symbols d = Ok g →
  Z.of_nat (length g) = total_count d.
Proof.
  intros Hwf Hcounts Hg. pose proof (graph_nodes_ok_known d g Hg) as Hd.
  rewrite graph_nodes_known in Hg by done. injection Hg as <-.
  rewrite length_numbered. unfold expand. rewrite length_copies.
  rewrite sorted_Permutation.
  replace (sum_list_with (λ kv, Z.to_nat kv.2) (by_atom_number element_symbols d))
    with (sum_list_with (λ kv : string * Z, Z.to_nat kv.2) d).
  - by apply total_count_nonneg.
  - clear. induction d as [|kv d IH]; simpl; [done|]. by rewrite IH.
Qed.

Lemma expand_known (l : list (nat * Z)) :
  Forall (λ kv, ∃ e, atom'' !! e = Some kv.1) l →
  Forall (λ x, ∃ k, atom'' !! x = Some k ∧ number'' !! k = Some x)
         (expand element_symbols l).
Proof.
  induction 1 as [|[k v] l [e He] _ IH]; [done|]. simpl in He.
  rewrite expand_cons. apply Forall_app. split; [|done].
  destruct (atom_number_number_atom _ _ _ He) as [_ Hk]. rewrite Hk. simpl.
  apply Forall_replicate. by exists k.
Qed.

(** What a returned node mapping looks like: a dictionary whose values all
    have an atomic number that leads back to them. *)
Lemma graph_nodes_output (d : pydict string Z) g :
  Dict.wf d →
  graph_nodes_from_element_count element_symbols d = Ok g →
  Dict.wf g
  ∧ Forall (λ nv, ∃ k, atom'' !! nv.2 = Some k ∧ number'' !! k = Some nv.2) g.
Proof.
  intros Hwf Hg. pose proof (graph_nodes_ok_known d g Hg) as Hd.
  rewrite graph_nodes_known in Hg by done. injection Hg as <-. split.
  - unfold Dict.wf. rewrite keys_numbered. apply NoDup_seq.
  - assert (Forall (λ x, ∃ k, atom'' !! x = Some k ∧ number'' !! k = Some x)
                   (expand element_symbols
                           (sorted (by_atom_number element_symbols d)))) as Hall.
    { apply expand_known, Forall_forall. intros [k v] Hin.
      rewrite sorted_Permutation in Hin.
      apply by_atom_number_elem_of in Hin as (e & _ & He & _); [|done].
      by exists e. }
    apply Forall_forall. intros [i x] Hin. simpl.
    rewrite Forall_forall in Hall. apply Hall.
    unfold numbered in Hin. by apply elem_of_zip_r in Hin.
Qed.

Lemma graph_nodes_convert (d : pydict string Z) g :
  Dict.wf d →
  graph_nodes_from_element_count element_symbols d = Ok g →
  convert_graph_nodes_element_to_atomic_number element_symbols g
  = Ok ((λ nv, (nv.1, default 0 (atom'' !! nv.2))) <$> g).
Proof.
  intros Hwf Hg. destruct (graph_nodes_output d g Hwf Hg) as [Hwfg Hknown].
  apply convert_known; [done|].
  eapply Forall_impl; [exact Hknown|]. intros nv (k & Hk & _). by exists k.
Qed.

(** X8: whenever the node pipeline returns a node mapping for a TUCAN
    string, in either mode, the mapping has as many nodes as the counts of
    the element-count mapping of the first section add up to. *)
Theorem node_pipeline_count tucan_string use_element_symbols g :
  tucan_string_to_graph_nodes element_symbols tucan_string use_element_symbols
  = Ok g →
  ∃ sum_formula d,
    Str.split "/" tucan_string !! 0 = Some sum_formula
    ∧ element_count_from_sum_formula sum_formula = Ok d
    ∧ Z.of_nat (length g) = total_count d.
Proof.
  unfold tucan_string_to_graph_nodes. intros Hg.
  destruct (Str.split "/" tucan_string !! 0) as [sum_formula|]; [|done].
  simpl in Hg.
  destruct (element_count_from_sum_formula sum_formula) as [d|] eqn:Hd; [|done].
  simpl in Hg.
  destruct (graph_nodes_from_element_count element_symbols d) as [g0|] eqn:Hg0;
    [|done].
  simpl in Hg. exists sum_formula, d. split; [done|]. split; [done|].
  rewrite <- (length_graph_nodes d g0);
    [|by eapply element_count_wf| |done].
  - destruct use_element_symbols.
    + injection Hg as <-. by rewrite length_fmap.
    + destruct (convert_graph_nodes_element_to_atomic_number _ g0)
        as [g1|] eqn:Hg1; [|done].
      simpl in Hg. injection Hg as <-. rewrite length_fmap.
      rewrite (graph_nodes_convert d g0) in Hg1;
        [|by eapply element_count_wf|done].
      injection Hg1 as <-. by rewrite length_fmap.
  - eapply Forall_impl; [by eapply element_count_entries|]. by intros ? [_ ?].
Qed.
End element_nodes.

Lemma nodes_per_element_witness :
  Dict.wf [("O", 1%Z); ("H", 2%Z)]
  ∧ Forall (λ kv : string * Z, is_Some (atom_number_dict first_elements !! kv.1))
           [("O", 1%Z); ("H", 2%Z)]
  ∧ ∃ graph_nodes,
      graph_nodes_from_element_count first_elements [("O", 1%Z); ("H", 2%Z)]
      = Ok graph_nodes
      ∧ length (filter (λ nv, nv.2 = "H") graph_nodes) = 2.
Proof.
  assert (Dict.wf [("O", 1%Z); ("H", 2%Z)]) as Hwf.
  { unfold Dict.wf. apply (bool_decide_unpack _). vm_compute. exact I. }
  assert (Forall (λ kv : string * Z,
                    is_Some (atom_number_dict first_elements !! kv.1))
                 [("O", 1%Z); ("H", 2%Z)]) as Hknown.
  { repeat constructor; by eexists. }
  split; [exact Hwf|]. split; [exact Hknown|].
  exact (nodes_per_element first_elements [("O", 1%Z); ("H", 2%Z)] "H" Hwf Hknown).
Defined.

Lemma node_pipeline_count_witness :
  tucan_string_to_graph_nodes first_elements "H2OH/(1-2)" true
  = Ok [(1, Symbol "H"); (2, Symbol "O")]
  ∧ ∃ sum_formula d,
      Str.split "/" "H2OH/(1-2)" !! 0 = Some sum_formula
      ∧ element_count_from_sum_formula sum_formula = Ok d
      ∧ Z.of_nat (length [(1, Symbol "H"); (2, Symbol "O")]) = total_count d.
Proof.
  split; [reflexivity|].
  exact (node_pipeline_count first_elements "H2OH/(1-2)" true _ eq_refl).
Defined.

(** ** The two modes of the node pipeline *)

Section node_modes.
Variable element_symbols : list string.

(** X9: the mode with atomic numbers succeeds exactly when the mode with
    symbols does, with the same node ids in the same order and, for every
    node, the atomic number of its symbol (which the table leads back to
    the symbol); when one mode raises, the other raises the same error.  So
    the conversion to atomic numbers never fails on its own. *)
Theorem node_modes_agree tucan_string :
  (∀ g, tucan_string_to_graph_nodes element_symbols tucan_string true = Ok g →
        ∃ g', tucan_string_to_graph_nodes element_symbols tucan_string false = Ok g'
              ∧ Forall2 (λ a b, a.1 = b.1
                                ∧ ∃ e k, a.2 = Symbol e ∧ b.2 = Number k
                                         ∧ atom_number_dict element_symbols !! e = Some k
                                         ∧ number_atom_dict element_symbols !! k = Some e)
                        g g')
  ∧ (∀ err, tucan_string_to_graph_nodes element_symbols tucan_string true = Raise err →
            tucan_string_to_graph_nodes element_symbols tucan_string false = Raise err).
Proof.
  unfold tucan_string_to_graph_nodes.
  destruct (Str.split "/" tucan_string !! 0) as [sum_formula|]; simpl; [|done].
  destruct (element_count_from_sum_formula sum_formula) as [d|] eqn:Hd; simpl;
    [|done].
  destruct (graph_nodes_from_element_count element_symbols d) as [g0|] eqn:Hg0;
    simpl; [|done].
  pose proof (element_count_wf _ _ Hd) as Hwf.
  rewrite (graph_nodes_convert _ d g0) by done. simpl. split; [|done].
  intros g [= <-]. eexists. split; [done|].
  rewrite <- list_fmap_compose. apply Forall2_fmap, Forall_Forall2_diag.
  destruct (graph_nodes_output _ d g0 Hwf Hg0) as [_ Hknown].
  eapply Forall_impl; [exact Hknown|]. intros [i e] (k & Hk & Hn). simpl in *.
  split; [done|]. exists e, k. by rewrite Hk.
Qed.

(** X10: the node pipeline reads the first section only: what follows the
    first [/] does not change its result. *)
Theorem nodes_depend_on_first_section sum_formula rest use_element_symbols :
  Str.contains "/" sum_formula = false → Syntax.section_end rest →
  tucan_string_to_graph_nodes element_symbols (sum_formula +:+ rest)
    use_element_symbols
  = tucan_string_to_graph_nodes element_symbols sum_formula use_element_symbols.
Proof.
  intros Hf Hrest. unfold tucan_string_to_graph_nodes.
  rewrite split_first_section by done.
  by rewrite split_without.
Qed.
End node_modes.

Lemma node_modes_agree_witness :
  tucan_string_to_graph_nodes first_elements "OH2/(1-3)(2-3)" true
  = Ok [(1, Symbol "H"); (2, Symbol "H"); (3, Symbol "O")]
  ∧ ∃ g', tucan_string_to_graph_nodes first_elements "OH2/(1-3)(2-3)" false = Ok g'
          ∧ length g' = 3.
Proof.
  split; [reflexivity|].
  destruct (proj1 (node_modes_agree first_elements "OH2/(1-3)(2-3)") _ eq_refl)
    as (g' & Hg' & Hall).
  exists g'. split; [exact Hg'|].
  by rewrite <- (Forall2_length _ _ _ Hall).
Defined.

Lemma nodes_depend_on_first_section_witness :
  Str.contains "/" "C2H4O" = false ∧ Syntax.section_end "/(1-5)/x"
  ∧ tucan_string_to_graph_nodes first_elements "C2H4O/(1-5)/x" false
    = tucan_string_to_graph_nodes first_elements "C2H4O" false.
Proof.
  assert (Syntax.section_end "/(1-5)/x") as Hrest.
  { right. by eexists. }
  split; [reflexivity|]. split; [exact Hrest|].
  exact (nodes_depend_on_first_section first_elements "C2H4O" "/(1-5)/x" false
           eq_refl Hrest).
Defined.

(** ** More on the edges *)

Lemma contains_count c s : Str.contains c s = false ↔ count_char c s = 0.
Proof.
  induction s as [|x r IH]; [done|]. rewrite contains_cons_false, IH. simpl.
  case_decide.
  - split; [by intros [? _]|lia].
  - split; [intros [_ ?]; lia|intros ?; split; [done|lia]].
Qed.

Lemma length_cons_head c l : length (Str.cons_head c l) = length l.
Proof. by destruct l. Qed.

Lemma length_split sep s : length (Str.split sep s) = S (count_char sep s).
Proof.
  induction s as [|x r IH]; [done|]. simpl. case_decide; simpl.
  - by rewrite IH.
  - by rewrite length_cons_head, IH.
Qed.

Lemma length_removelast {A} (l : list A) : length (removelast l) = pred (length l).
Proof.
  induction l as [|x l IH]; [done|]. destruct l; [done|].
  cbn [removelast length] in *. by rewrite IH.
Qed.

Lemma edges_of_section_cases edge_section :
  edges_of_section edge_section = Raise ValueError
  ∨ ∃ es, edges_of_section edge_section = Ok es.
Proof.
  unfold edges_of_section. apply comprehension_cases, Forall_forall.
  intros edge _. apply comprehension_int_cases.
Qed.

(** X11: the call raises [IndexError] exactly when the string has no [/];
    with a [/] in the string, the only error is the [ValueError] of
    [int]. *)
Theorem edges_errors tucan_string :
  (tucan_string_to_graph_edges tucan_string = Raise IndexError
   ↔ Str.contains "/" tucan_string = false)
  ∧ (∀ e, tucan_string_to_graph_edges tucan_string = Raise e →
          e = IndexError ∨ e = ValueError).
Proof.
  unfold tucan_string_to_graph_edges.
  destruct (Str.split "/" tucan_string !! 1) as [edge_section|] eqn:Hsection;
    simpl.
  - assert (Str.contains "/" tucan_string ≠ false) as Hslash.
    { intros Hno. rewrite split_without in Hsection by done. done. }
    destruct (edges_of_section_cases edge_section) as [->|[es ->]].
    + split; [done|]. intros e [= <-]. by right.
    + split; [done|]. by intros e.
  - split; [|intros e [= <-]; by left]. split; [|done]. intros _.
    apply contains_count. apply lookup_ge_None in Hsection.
    rewrite length_split in Hsection. lia.
Qed.

(** X12: a returned edge list has one tuple for every closing bracket of
    the edge section, and the tuple of a segment has one integer more than
    the segment has hyphens after its first character; so no tuple is
    empty. *)
Theorem edges_count tucan_string edge_section es :
  Str.split "/" tucan_string !! 1 = Some edge_section →
  tucan_string_to_graph_edges tucan_string = Ok es →
  length es = count_char ")" edge_section
  ∧ Forall2 (λ segment tuple,
               length tuple = S (count_char "-" (Str.drop_first segment)))
            (removelast (Str.split ")" edge_section)) es
  ∧ Forall (λ tuple, tuple ≠ []) es.
Proof.
  intros Hsection. unfold tucan_string_to_graph_edges. rewrite Hsection. simpl.
  unfold edges_of_section. rewrite comprehension_fmap.
  intros Hes%comprehension_Forall2.
  assert (Forall2 (λ segment tuple : _,
                     length tuple = S (count_char "-" (Str.drop_first segment)))
                  (removelast (Str.split ")" edge_section)) es) as Hall.
  { eapply Forall2_impl; [exact Hes|]. intros segment tuple. simpl.
    intros Htuple%comprehension_Forall2%Forall2_length.
    by rewrite <- Htuple, length_split. }
  split; [|split; [done|]].
  - rewrite <- (Forall2_length _ _ _ Hes), length_removelast, length_split. done.
  - eapply Forall2_Forall_r; [exact Hall|]. apply Forall_forall.
    intros segment _ tuple Hlen. by destruct tuple.
Qed.

(** X13: the call reads the second section only: neither the sum formula
    nor what follows the second [/] changes its result. *)
Theorem edges_depend_on_second_section f f' e rest rest' :
  Str.contains "/" f = false → Str.contains "/" f' = false →
  Str.contains "/" e = false →
  Syntax.section_end rest → Syntax.section_end rest' →
  tucan_string_to_graph_edges (f +:+ "/" +:+ e +:+ rest)
  = tucan_string_to_graph_edges (f' +:+ "/" +:+ e +:+ rest').
Proof. intros. by rewrite !edges_of_second_section. Qed.

Lemma append_cons c s t : String c s +:+ t = String c (s +:+ t).
Proof. reflexivity. Qed.

Lemma edge_section_opened_without_slash l :
  Forall (λ cab : ascii * (nat * nat), cab.1 ≠ "/"%char) l →
  Str.contains "/" (edge_section_opened l) = false.
Proof.
  induction 1 as [|[c [a b]] l Hc _ IH]; [done|].
  cbn [edge_section_opened foldr]. fold (edge_section_opened l).
  unfold edge_opened. cbn [fst snd]. rewrite append_cons.
  apply contains_cons_false. split; [done|].
  by rewrite !contains_append, !dec_without, IH.
Qed.

(** X14: the first character of a segment is dropped without a look at it:
    any character but [)] and [/] in the place of the opening bracket gives
    the same edges. *)
Theorem edges_opening_character f (l : list (ascii * (nat * nat))) rest :
  Str.contains "/" f = false → Syntax.section_end rest →
  Forall (λ cab, cab.1 ≠ ")"%char ∧ cab.1 ≠ "/"%char) l →
  tucan_string_to_graph_edges (f +:+ "/" +:+ edge_section_opened l +:+ rest)
  = Ok ((λ cab, [Z.of_nat cab.2.1; Z.of_nat cab.2.2]) <$> l).
Proof.
  intros Hf Hrest Hl. rewrite edges_of_second_section; [|done| |done].
  2:{ apply edge_section_opened_without_slash.
      eapply Forall_impl; [exact Hl|]. by intros ? [_ ?]. }
  unfold edges_of_section.
  assert (Str.split ")" (edge_section_opened l)
          = ((λ cab, String cab.1 (Syntax.dec cab.2.1 +:+ "-" +:+ Syntax.dec cab.2.2))
               <$> l) ++ [EmptyString]) as ->.
  { induction Hl as [|[c [a b]] l [Hc _] _ IH]; [done|].
    cbn [edge_section_opened foldr fmap list_fmap app].
    fold (edge_section_opened l). unfold edge_opened at 1.
    rewrite <- IH. cbn [fst snd].
    rewrite <- (split_append ")" (String c (Syntax.dec a +:+ "-" +:+ Syntax.dec b))).
    - f_equal. simpl. f_equal.
      by rewrite !append_assoc; simpl; rewrite !append_assoc.
    - apply contains_cons_false. split; [done|].
      by rewrite !contains_append, !dec_without. }
  rewrite removelast_last, !comprehension_fmap.
  apply comprehension_total, Forall_forall. intros [c [a b]] _. simpl.
  rewrite split_append by by apply dec_without.
  rewrite split_without by by apply dec_without.
  simpl. by rewrite !int_dec.
Qed.

Lemma edges_errors_witness :
  tucan_string_to_graph_edges "C2H4O/(a-5)" = Raise ValueError
  ∧ (ValueError = IndexError ∨ ValueError = ValueError).
Proof.
  split; [reflexivity|].
  exact (proj2 (edges_errors "C2H4O/(a-5)") ValueError eq_refl).
Defined.

Lemma edges_count_witness :
  Str.split "/" "C2H4O/(1-5)(1-2-3)(4)" !! 1 = Some "(1-5)(1-2-3)(4)"
  ∧ tucan_string_to_graph_edges "C2H4O/(1-5)(1-2-3)(4)"
    = Ok [[1; 5]; [1; 2; 3]; [4]]%Z
  ∧ length [[1; 5]; [1; 2; 3]; [4]]%Z = count_char ")" "(1-5)(1-2-3)(4)".
Proof.
  split; [reflexivity|]. split; [reflexivity|].
  exact (proj1 (edges_count "C2H4O/(1-5)(1-2-3)(4)" "(1-5)(1-2-3)(4)" _
                  eq_refl eq_refl)).
Defined.

Lemma edges_depend_on_second_section_witness :
  Str.contains "/" "C2H4O" = false ∧ Str.contains "/" "" = false
  ∧ Str.contains "/" "(1-5)(2-5)" = false
  ∧ Syntax.section_end "/x" ∧ Syntax.section_end ""
  ∧ tucan_string_to_graph_edges "C2H4O/(1-5)(2-5)/x"
    = tucan_string_to_graph_edges "/(1-5)(2-5)".
Proof.
  assert (Syntax.section_end "/x") as Hrest by (right; by eexists).
  assert (Syntax.section_end "") as Hrest' by by left.
  do 3 (split; [reflexivity|]). split; [exact Hrest|]. split; [exact Hrest'|].
  exact (edges_depend_on_second_section "C2H4O" "" "(1-5)(2-5)" "/x" ""
           eq_refl eq_refl eq_refl Hrest Hrest').
Defined.

Lemma edges_opening_character_witness :
  Str.contains "/" "C2H4O" = false ∧ Syntax.section_end ""
  ∧ Forall (λ cab : ascii * (nat * nat),
              cab.1 ≠ ")"%char ∧ cab.1 ≠ "/"%char)
           [("["%char, (1, 5)); ("-"%char, (2, 5))]
  ∧ tucan_string_to_graph_edges "C2H4O/[1-5)-2-5)" = Ok [[1; 5]; [2; 5]]%Z.
Proof.
  assert (Syntax.section_end "") as Hrest by by left.
  assert (Forall (λ cab : ascii * (nat * nat),
                    cab.1 ≠ ")"%char ∧ cab.1 ≠ "/"%char)
                 [("["%char, (1, 5)); ("-"%char, (2, 5))]) as Hl.
  { repeat constructor; done. }
  split; [reflexivity|]. split; [exact Hrest|]. split; [exact Hl|].
  exact (edges_opening_character "C2H4O" _ "" eq_refl Hrest Hl).
Defined.

(** ** The graph *)

Section graph_facts.
Variable element_symbols : list string.

(** X15: a string without [/] never gives a graph: the error of the node
    pipeline comes first, and when the nodes are fine the missing edge
    section raises [IndexError]. *)
Theorem graph_without_edge_section tucan_string :
  Str.contains "/" tucan_string = false →
  (∀ e, tucan_string_to_graph_nodes element_symbols tucan_string true = Raise e →
        tucan_string_to_graph element_symbols tucan_string = Raise e)
  ∧ (∀ g, tucan_string_to_graph_nodes element_symbols tucan_string true = Ok g →
          tucan_string_to_graph element_symbols tucan_string = Raise IndexError)
  ∧ ∀ graph, tucan_string_to_graph element_symbols tucan_string ≠ Ok graph.
Proof.
  intros Hslash.
  assert (tucan_string_to_graph_edges tucan_string = Raise IndexError) as Hedges.
  { unfold tucan_string_to_graph_edges. by rewrite split_without. }
  unfold tucan_string_to_graph. rewrite Hedges.
  destruct (tucan_string_to_graph_nodes element_symbols tucan_string true);
    simpl; split_and!; try done; congruence.
Qed.

(** X16: a well-formed sum formula whose symbols are all in the table,
    followed by any list of bracketed pairs of numbers, gives a graph with
    the nodes of the formula and exactly these pairs as edges: the node ids
    of the edges are not checked against the nodes. *)
Theorem graph_of_well_formed units (l : list (nat * nat)) rest :
  units ≠ [] → Forall (λ u, Syntax.is_symbol u.1 = true) units →
  Forall (λ u, is_Some (atom_number_dict element_symbols !! u.1)) units →
  Syntax.section_end rest →
  ∃ nodes,
    tucan_string_to_graph_nodes element_symbols (Syntax.formula units) true
    = Ok nodes
    ∧ Z.of_nat (length nodes)
      = total_count (Dict.of_pairs (Syntax.assignments units))
    ∧ tucan_string_to_graph element_symbols
        (Syntax.formula units +:+ "/" +:+ Syntax.edge_section l +:+ rest)
      = Ok (Graph nodes ((λ ab, [Z.of_nat ab.1; Z.of_nat ab.2]) <$> l)).
Proof.
  intros Hne Hunits Hknown Hrest.
  pose proof (element_count_of_formula units Hne Hunits) as Hd.
  set (d := Dict.of_pairs (Syntax.assignments units)) in *.
  pose proof (element_count_wf _ _ Hd) as Hwf.
  assert (Forall (λ kv : string * Z,
                    is_Some (atom_number_dict element_symbols !! kv.1)) d)
    as Hd_known.
  { apply Forall_forall. intros [e v] Hin. simpl.
    assert (e ∈ Dict.keys d) as Hkey.
    { apply list_elem_of_fmap. by exists (e, v). }
    unfold d in Hkey. rewrite keys_of_pairs, assignments_keys in Hkey.
    apply list_elem_of_fmap in Hkey as ([e' c] & -> & Hin').
    rewrite Forall_forall in Hknown. by apply (Hknown _ Hin'). }
  assert (tucan_string_to_graph_nodes element_symbols (Syntax.formula units) true
          = Ok (prod_map id Symbol
                  <$> numbered (expand element_symbols
                                  (sorted (by_atom_number element_symbols d)))))
    as Hnodes.
  { unfold tucan_string_to_graph_nodes.
    rewrite split_without by by apply formula_without_slash.
    simpl. rewrite Hd. simpl. by rewrite graph_nodes_known. }
  eexists. split; [exact Hnodes|]. split.
  - rewrite length_fmap.
    apply (length_graph_nodes element_symbols d); [done| |by apply graph_nodes_known].
    eapply Forall_impl; [by eapply element_count_entries|]. by intros ? [_ ?].
  - unfold tucan_string_to_graph.
    pose proof (formula_without_slash units Hunits) as Hslash.
    assert (Syntax.section_end ("/" +:+ Syntax.edge_section l +:+ rest)) as Hend.
    { right. by eexists. }
    assert (tucan_string_to_graph_nodes element_symbols
              (Syntax.formula units +:+ "/" +:+ Syntax.edge_section l +:+ rest) true
            = tucan_string_to_graph_nodes element_symbols (Syntax.formula units) true)
      as ->.
    { unfold tucan_string_to_graph_nodes.
      by rewrite split_first_section, split_without. }
    rewrite Hnodes. cbn [mbind result_bind].
    rewrite edges_of_second_section by auto using edge_section_without_slash.
    by rewrite edges_of_edge_section.
Qed.
End graph_facts.

Lemma graph_without_edge_section_witness :
  Str.contains "/" "C2H4O" = false
  ∧ tucan_string_to_graph_nodes first_elements "C2H4O" true
    = Ok [(1, Symbol "H"); (2, Symbol "H"); (3, Symbol "H"); (4, Symbol "H");
          (5, Symbol "C"); (6, Symbol "C"); (7, Symbol "O")]
  ∧ tucan_string_to_graph first_elements "C2H4O" = Raise IndexError.
Proof.
  split; [reflexivity|]. split; [reflexivity|].
  exact (proj1 (proj2 (graph_without_edge_section first_elements "C2H4O" eq_refl))
           _ eq_refl).
Defined.

Lemma graph_of_well_formed_witness :
  [("H", Some 2); ("O", None)] ≠ ([] : list (string * option nat))
  ∧ Forall (λ u : string * option nat, Syntax.is_symbol u.1 = true)
           [("H", Some 2); ("O", None)]
  ∧ Forall (λ u : string * option nat,
              is_Some (atom_number_dict first_elements !! u.1))
           [("H", Some 2); ("O", None)]
  ∧ Syntax.section_end ""
  ∧ ∃ nodes,
      tucan_string_to_graph_nodes first_elements "H2O" true = Ok nodes
      ∧ tucan_string_to_graph first_elements "H2O/(1-3)(7-9)"
        = Ok (Graph nodes [[1; 3]; [7; 9]]%Z).
Proof.
  assert (Forall (λ u : string * option nat, Syntax.is_symbol u.1 = true)
                 [("H", Some 2); ("O", None)]) as Hunits.
  { repeat constructor. }
  assert (Forall (λ u : string * option nat,
                    is_Some (atom_number_dict first_elements !! u.1))
                 [("H", Some 2); ("O", None)]) as Hknown.
  { repeat constructor; by eexists. }
  assert (Syntax.section_end "") as Hrest by by left.
  split; [done|]. split; [exact Hunits|]. split; [exact Hknown|].
  split; [exact Hrest|].
  destruct (graph_of_well_formed first_elements [("H", Some 2); ("O", None)]
              [(1, 3); (7, 9)] "" ltac:(done) Hunits Hknown Hrest)
    as (nodes & Hnodes & _ & Hgraph).
  exists nodes. split; [exact Hnodes|exact Hgraph].
Defined.

(** ** Text after the last unit of a formula *)

Lemma split_text_free w :
  Str.any Char.is_digit w = false → Re.split_text w = [w].
Proof.
  intros Hw. rewrite <- (append_nil_r w) at 1.
  rewrite split_text_prefix by done. simpl. by rewrite append_nil_r.
Qed.

Lemma take_non_capital_free r :
  Str.any Char.is_capital r = false → Str.take_non_capital r = r.
Proof.
  induction r as [|c r IH]; simpl; [done|].
  intros [-> Hr]%orb_false_iff. by rewrite IH.
Qed.

Lemma findall_symbol_tail sym w :
  Syntax.is_symbol sym = true → Str.any Char.is_capital w = false →
  Re.findall_capital (sym +:+ w) = [sym +:+ w].
Proof.
  intros (c & r & -> & Hc & Hr%lower_any_capital)%symbol_parts Hw. simpl.
  rewrite Hc.
  assert (Str.any Char.is_capital (r +:+ w) = false) as Hrw
      by by rewrite any_append, Hr, Hw.
  by rewrite take_non_capital_free, findall_without_capital.
Qed.

Lemma findall_symbols_then syms x :
  Forall (λ sym, Syntax.is_symbol sym = true) syms →
  Str.starts_with Char.is_capital x = true →
  Re.findall_capital (Syntax.join syms +:+ x) = syms ++ Re.findall_capital x.
Proof.
  intros Hsyms Hx. induction Hsyms as [|sym syms Hsym Hsyms IH]; [done|].
  simpl. rewrite append_assoc, findall_symbol, IH; [done..|].
  right. destruct Hsyms as [|s' syms' (c & r & -> & Hc & _)%symbol_parts _];
    [done|]. done.
Qed.

Lemma isalpha_false s : Str.all Char.is_alpha s = false → Str.isalpha s = false.
Proof. by destruct s. Qed.

Lemma run_cons_next tok toks st st' :
  tokenizer_step st tok = Ok st' → toks ≠ [] →
  tokenizer_run (tok :: toks) st = tokenizer_run toks st'.
Proof.
  intros Hstep Hne. unfold tokenizer_run. simpl. rewrite Hstep. simpl.
  by destruct toks.
Qed.

Lemma formula_tail_start units w :
  units ≠ [] → Forall (λ u, Syntax.is_symbol u.1 = true) units →
  Str.starts_with Char.is_digit (Syntax.formula units +:+ w) = false.
Proof.
  intros Hne Hunits.
  destruct Hunits as [|[sym c] units (x & r & Hsym & Hx & _)%symbol_parts _];
    [done|].
  simpl in *. subst sym. simpl. by apply capital_not_digit.
Qed.

(** The run over a formula that ends in the unit [(sym, c)] and is followed
    by text [w] with neither a digit nor a capital letter, and not all
    letters. *)
Lemma run_units_tail sym c w units :
  Syntax.is_symbol sym = true →
  Str.any Char.is_digit w = false → Str.any Char.is_capital w = false →
  Str.all Char.is_alpha w = false →
  Forall (λ u, Syntax.is_symbol u.1 = true) units →
  ∀ syms st,
    Forall (λ sym, Syntax.is_symbol sym = true) syms →
    tokenizer_run
      (let l := Str.prepend (Syntax.join syms)
                  (Re.split_text (Syntax.formula (units ++ [(sym, c)]) +:+ w)) in
       if decide (last l = Some EmptyString) then removelast l else l) st
    = match c with
      | Some _ => Raise ValueError
      | None =>
          Ok (foldl (λ d kv, Dict.set kv.1 kv.2 d) st.2
                (((λ sym, (sym, 1%Z)) <$> syms) ++ Syntax.assignments units))
      end.
Proof.
  intros Hsym Hdig Hcap Halpha.
  assert (w ≠ EmptyString) as Hw by by intros ->.
  induction 1 as [|[s0 [m|]] units Hs0 Hunits IH]; intros syms st Hsyms.
  - cbn [app Syntax.formula foldr fst snd]. rewrite append_nil_r.
    destruct c as [n|]; cbn [Syntax.count_text].
    + rewrite !append_assoc.
      rewrite split_text_prefix by by apply symbol_without_digit.
      rewrite split_text_digits
        by (auto using dec_all_digit, dec_not_empty, any_starts_with).
      rewrite split_text_free by done. cbn [Str.prepend].
      rewrite append_nil_r.
      rewrite decide_False by (cbn; congruence).
      assert (tokenizer_step st (Syntax.join syms +:+ sym)
              = Ok (sym, foldl (λ d element, Dict.set element 1%Z d) st.2 syms))
        as Hstep1.
      { rewrite (step_matches st _ (syms ++ [sym])).
        - by rewrite last_snoc, removelast_last.
        - replace sym with (Syntax.join [sym]) at 1 by apply append_nil_r.
          rewrite <- join_app. apply findall_symbols.
          apply Forall_app. split; [done|]. by constructor.
        - by destruct syms. }
      rewrite (run_cons_next _ _ _ _ Hstep1) by done.
      erewrite run_cons_next; [| |done].
      2:{ apply step_number; [|apply int_dec].
          apply findall_without_capital, dec_without_capital. }
      apply run_raise. cbn [for_each]. by rewrite step_without_symbol.
    + rewrite append_nil_r.
      assert (Str.any Char.is_digit (sym +:+ w) = false) as Hfree.
      { by rewrite any_append, symbol_without_digit. }
      rewrite split_text_free by done. cbn [Str.prepend].
      assert (Syntax.join syms +:+ sym +:+ w ≠ EmptyString) as Hne.
      { apply symbol_parts in Hsym as (x & r & -> & _).
        destruct (Syntax.join syms); done. }
      rewrite decide_False by (cbn; congruence).
      unfold tokenizer_run. cbn [for_each].
      rewrite (step_matches st _ (syms ++ [sym +:+ w])).
      * rewrite last_snoc, removelast_last. simpl.
        rewrite isalpha_false.
        -- by rewrite app_nil_r, foldl_set_ones.
        -- rewrite !all_append, Halpha. by rewrite !andb_false_r.
      * rewrite findall_symbols_then, findall_symbol_tail; try done.
        apply symbol_parts in Hsym as (x & r & -> & Hx & _). done.
      * by destruct syms.
  - simpl in Hs0. cbn [app Syntax.formula foldr]. fold (Syntax.formula (units ++ [(sym, c)])).
    cbn [fst snd Syntax.count_text]. rewrite !append_assoc.
    rewrite split_text_prefix by by apply symbol_without_digit.
    rewrite split_text_digits;
      [|apply dec_all_digit|apply dec_not_empty|].
    2:{ apply formula_tail_start; [by destruct units|].
        apply Forall_app. split; [done|]. by constructor. }
    cbn [Str.prepend]. rewrite append_nil_r.
    rewrite tokens_cons2 by apply split_text_not_nil.
    assert (tokenizer_step st (Syntax.join syms +:+ s0)
            = Ok (s0, foldl (λ d element, Dict.set element 1%Z d) st.2 syms))
      as Hstep1.
    { rewrite (step_matches st _ (syms ++ [s0])).
      - by rewrite last_snoc, removelast_last.
      - replace s0 with (Syntax.join [s0]) at 1 by apply append_nil_r.
        rewrite <- join_app. apply findall_symbols.
        apply Forall_app. split; [done|]. by constructor.
      - by destruct syms. }
    specialize (IH [] (s0, Dict.set s0 (Z.of_nat m)
                 (foldl (λ d element, Dict.set element 1%Z d) st.2 syms))
                 (Forall_nil_2 _)).
    cbn [Syntax.join foldr] in IH. rewrite prepend_empty in IH.
    assert ((if decide (last (Re.split_text
                                (Syntax.formula (units ++ [(sym, c)]) +:+ w))
                        = Some EmptyString)
             then removelast (Re.split_text
                                (Syntax.formula (units ++ [(sym, c)]) +:+ w))
             else Re.split_text (Syntax.formula (units ++ [(sym, c)]) +:+ w))
            ≠ []) as Hrest.
    { intros Hnil. rewrite Hnil in IH. by destruct c. }
    rewrite (run_cons_next _ _ _ _ Hstep1) by done.
    erewrite run_cons_next; [| |exact Hrest].
    2:{ apply step_number; [|apply int_dec].
        apply findall_without_capital, dec_without_capital. }
    rewrite IH. destruct c; [done|]. cbn [snd fmap list_fmap app].
    unfold Syntax.assignments at 2. cbn [fmap list_fmap fst snd Syntax.count_value].
    fold (Syntax.assignments units).
    by rewrite foldl_app, foldl_set_ones.
  - simpl in Hs0. cbn [app Syntax.formula foldr]. fold (Syntax.formula (units ++ [(sym, c)])).
    cbn [fst snd Syntax.count_text]. simpl (EmptyString +:+ _).
    rewrite append_assoc.
    rewrite split_text_prefix by by apply symbol_without_digit.
    rewrite prepend_prepend.
    replace (Syntax.join syms +:+ s0) with (Syntax.join (syms ++ [s0])).
    2:{ rewrite join_app. simpl. by rewrite append_nil_r. }
    rewrite IH.
    + destruct c; [done|]. by rewrite fmap_app, <- app_assoc.
    + apply Forall_app. split; [done|]. by constructor.
Qed.

(** X17: text after a well-formed formula that has no digit and no capital
    letter and is not all letters (a blank, a sign, a line end) is not
    reported as such.  After a last unit with a count it makes the
    tokenizer raise [ValueError]; after a last unit without a count the
    tokenizer returns the mapping of the units before it, and the last
    element is left out without an error. *)
Theorem text_after_formula units sym c w :
  Forall (λ u, Syntax.is_symbol u.1 = true) units →
  Syntax.is_symbol sym = true →
  Str.any Char.is_digit w = false → Str.any Char.is_capital w = false →
  Str.all Char.is_alpha w = false →
  element_count_from_sum_formula (Syntax.formula (units ++ [(sym, c)]) +:+ w)
  = match c with
    | Some _ => Raise ValueError
    | None => Ok (Dict.of_pairs (Syntax.assignments units))
    end.
Proof.
  intros Hunits Hsym Hdig Hcap Halpha. rewrite element_count_run.
  pose proof (run_units_tail sym c w units Hsym Hdig Hcap Halpha Hunits []
                (EmptyString, []) (Forall_nil_2 _)) as Hrun.
  cbn [Syntax.join foldr] in Hrun. rewrite prepend_empty in Hrun. exact Hrun.
Qed.

Lemma text_after_formula_witness :
  Forall (λ u : string * option nat, Syntax.is_symbol u.1 = true) [("H", Some 2)]
  ∧ Syntax.is_symbol "O" = true
  ∧ Str.any Char.is_digit " " = false ∧ Str.any Char.is_capital " " = false
  ∧ Str.all Char.is_alpha " " = false
  ∧ element_count_from_sum_formula "H2O " = Ok [("H", 2%Z)].
Proof.
  assert (Forall (λ u : string * option nat, Syntax.is_symbol u.1 = true)
                 [("H", Some 2)]) as Hunits.
  { repeat constructor. }
  split; [exact Hunits|]. do 4 (split; [reflexivity|]).
  exact (text_after_formula [("H", Some 2)] "O" None " " Hunits
           eq_refl eq_refl eq_refl eq_refl).
Defined.
